(** * humaid-qsl: the ADIF log parser and its query engine

    A shallow embedding of [src/utils/adif.go] (record parser, log parser,
    query engine) and of the reload coordinator of [src/cmd/web.go].

    Conventions of the embedding:
    - a Go [string] is a sequence of bytes: Rocq's [string];
    - ADIF (ADI) text is ASCII; module [Strings] embeds [strings.ToUpper],
      [strings.ToLower] and [strings.TrimSpace] as they work on ASCII text,
      byte by byte, and the theorems on the parse of a text have the text
      ASCII in a hypothesis;
    - on other text [strings.ToUpper] maps runes and can change the length
      of the text, which the header strip of [parseContent] does not
      expect: module [AnyText] embeds that path, with the bounds check of
      the slice and the panic;
    - Go's [int] and [time.Duration] are 64-bit: [Z] with the wrap-around
      written out ([wrap64]);
    - a [time.Time] without monotonic reading is the number of nanoseconds
      since January 1, year 1, 00:00:00 UTC (the zero [Time]);
    - a method with a pointer receiver that mutates the parser takes the
      parser and returns the new one. *)

From Stdlib Require Import ZArith Lia Bool Ascii String List.
From Stdlib Require Import Sorting.Sorted Sorting.Permutation.
From Stdlib Require Import Structures.OrdersEx.
From stdpp Require Import base option list gmap strings.

Local Open Scope Z_scope.

(** ** Machine integers *)

Definition wrap64 (z : Z) : Z := (z + 2 ^ 63) mod 2 ^ 64 - 2 ^ 63.

Definition maxInt64 : Z := 2 ^ 63 - 1.
Definition minInt64 : Z := - 2 ^ 63.

Definition inInt64 (z : Z) : bool := (minInt64 <=? z) && (z <=? maxInt64).

(** What a Go function call produces: a value, or a run-time panic. *)
Inductive Outcome (A : Type) : Type :=
| Returns (a : A)
| Panics.
Arguments Returns {A} a.
Arguments Panics {A}.

(** ** Package strings, on bytes *)

Module Strings.

Definition len (s : string) : Z := Z.of_nat (String.length s).

Definition isLowerByte (c : ascii) : bool :=
  let n := N_of_ascii c in ((97 <=? n) && (n <=? 122))%N.

Definition isUpperByte (c : ascii) : bool :=
  let n := N_of_ascii c in ((65 <=? n) && (n <=? 90))%N.

Definition isASCIIByte (c : ascii) : bool := (N_of_ascii c <? 128)%N.

Definition toUpperByte (c : ascii) : ascii :=
  if isLowerByte c then ascii_of_N (N_of_ascii c - 32) else c.

Definition toLowerByte (c : ascii) : ascii :=
  if isUpperByte c then ascii_of_N (N_of_ascii c + 32) else c.

Fixpoint mapBytes (f : ascii -> ascii) (s : string) : string :=
  match s with
  | EmptyString => EmptyString
  | String c s' => String (f c) (mapBytes f s')
  end.

(** [strings.ToUpper] and [strings.ToLower] on ASCII text: a byte map.
    On other text they map runes; [AnyText.ToUpper] has that path. *)
Definition ToUpper : string -> string := mapBytes toUpperByte.
Definition ToLower : string -> string := mapBytes toLowerByte.

Fixpoint isASCII (s : string) : bool :=
  match s with
  | EmptyString => true
  | String c s' => isASCIIByte c && isASCII s'
  end.

(** The six ASCII white space bytes: tab, line feed, vertical tab, form
    feed, carriage return, space. *)
Definition isSpace (c : ascii) : bool :=
  let n := N_of_ascii c in (((9 <=? n) && (n <=? 13)) || (n =? 32))%N.

Fixpoint trimLeft (s : string) : string :=
  match s with
  | EmptyString => EmptyString
  | String c s' => if isSpace c then trimLeft s' else s
  end.

Fixpoint trimRight (s : string) : string :=
  match s with
  | EmptyString => EmptyString
  | String c s' =>
      match trimRight s' with
      | EmptyString => if isSpace c then EmptyString else String c EmptyString
      | r => String c r
      end
  end.

(** [strings.TrimSpace] on ASCII text (on other text it also trims the
    white space of Unicode, U+0085 and U+00A0 among it). *)
Definition TrimSpace (s : string) : string := trimRight (trimLeft s).

(** [Index s substr]: the byte offset of the first occurrence of [substr]
    in [s], or -1. *)
Fixpoint Index (s substr : string) : Z :=
  if String.prefix substr s then 0
  else match s with
       | EmptyString => -1
       | String _ s' =>
           let i := Index s' substr in
           if i =? -1 then -1 else i + 1
       end.

(** The slice expressions [s[lo:hi]], [s[:hi]] and [s[lo:]], in range: a
    length test precedes those of [parseTimestamp], and the one of the
    header strip is in range on ASCII text ([stripHeader_in_range]); out
    of range they panic ([AnyText.sliceFrom]). *)
Definition slice (s : string) (lo hi : Z) : string :=
  String.substring (Z.to_nat lo) (Z.to_nat (hi - lo)) s.

Definition sliceTo (s : string) (hi : Z) : string := slice s 0 hi.

Definition sliceFrom (s : string) (lo : Z) : string := slice s lo (len s).

Definition isEmpty (s : string) : bool := String.eqb s EmptyString.

(** Go compares strings byte-wise, lexicographically. *)
Definition gt (a b : string) : bool :=
  match String_as_OT.compare a b with Gt => true | _ => false end.

End Strings.

(** ** Package strconv *)

Module Strconv.

Definition isDigit (c : ascii) : bool :=
  let n := N_of_ascii c in ((48 <=? n) && (n <=? 57))%N.

Definition digitVal (c : ascii) : Z := Z.of_N (N_of_ascii c) - 48.

(** The decimal value of a string of digits, [None] when a byte is not a
    digit. *)
Fixpoint digits (s : string) (acc : Z) : option Z :=
  match s with
  | EmptyString => Some acc
  | String c s' =>
      if isDigit c then digits s' (acc * 10 + digitVal c) else None
  end.

Definition unsigned (s : string) : option Z :=
  match s with
  | EmptyString => None
  | _ => digits s 0
  end.

(** [strconv.Atoi]: an optional sign, then at least one decimal digit and
    nothing else; a value outside the 64-bit [int] is an error. *)
Definition Atoi (s : string) : option Z :=
  let signed :=
    match s with
    | String c s' =>
        if Ascii.eqb c "-" then option_map Z.opp (unsigned s')
        else if Ascii.eqb c "+" then unsigned s'
        else unsigned s
    | EmptyString => None
    end in
  match signed with
  | Some n => if inInt64 n then Some n else None
  | None => None
  end.

End Strconv.

(** ** Package time *)

Module Time.

(** Nanoseconds since January 1, year 1, 00:00:00 UTC. *)
Definition Time : Type := Z.
(** A [Duration] is a 64-bit count of nanoseconds. *)
Definition Duration : Type := Z.

Definition Second : Duration := 1000000000.
Definition Minute : Duration := 60 * Second.

Definition zero : Time := 0.

Definition IsZero (t : Time) : bool := t =? 0.
Definition Before (t u : Time) : bool := t <? u.
Definition After (t u : Time) : bool := u <? t.

(** [t.Sub(u)]: the difference, saturated at the ends of [Duration]. *)
Definition Sub (t u : Time) : Duration :=
  let d := t - u in
  if d <? minInt64 then minInt64
  else if maxInt64 <? d then maxInt64
  else d.

(** Seconds between the zero [Time] and the Unix epoch. *)
Definition unixToInternal : Z := 62135596800.

Definition Unix (t : Time) : Z := t / Second - unixToInternal.

(** [norm hi lo base]: the pair [(nhi, nlo)] with
    [hi * base + lo = nhi * base + nlo] and [0 <= nlo < base]. *)
Definition norm (hi lo base : Z) : Z * Z := (hi + lo / base, lo mod base).

Definition isLeap (year : Z) : bool :=
  (year mod 4 =? 0) && (negb (year mod 100 =? 0) || (year mod 400 =? 0)).

(** Days before the first of each month in a non-leap year. *)
Definition daysBefore (m : Z) : Z :=
  nth (Z.to_nat m) [0; 31; 59; 90; 120; 151; 181; 212; 243; 273; 304; 334; 365] 0.

(** Days from January 1 of year 1 to January 1 of [year], in the proleptic
    Gregorian calendar. *)
Definition daysSinceYear1 (year : Z) : Z :=
  let y := year - 1 in 365 * y + y / 4 - y / 100 + y / 400.

(** [time.Date(year, month, day, hour, min, sec, 0, time.UTC)]: values
    outside their usual ranges are normalised, not refused. *)
Definition Date (year month day hour min sec : Z) : Time :=
  let '(year, m) := norm year (month - 1) 12 in
  let month := m + 1 in
  let '(min, sec) := norm min sec 60 in
  let '(hour, min) := norm hour min 60 in
  let '(day, hour) := norm day hour 24 in
  let d := daysSinceYear1 year + daysBefore (month - 1)
           + (if isLeap year && (3 <=? month) then 1 else 0)
           + (day - 1) in
  (d * 86400 + hour * 3600 + min * 60 + sec) * Second.

End Time.

(** ** Package regexp: the two patterns of the parser

    Both patterns are deterministic at a given start (each repetition is
    over a class that excludes the byte that must follow it), so the
    leftmost-first match of Go's engine is the one computed here. *)

Module Regexp.

Import Strings.

(** Does a match of [(?i)<eor>] start at the head of [s]? *)
Definition matchEOR (s : string) : bool :=
  String.eqb (ToUpper (String.substring 0 5 s)) "<EOR>".

(** [regexp.MustCompile(`(?i)<eor>`).Split(s, -1)]: the pieces between
    successive non-overlapping matches. [skip] counts the bytes of a match
    still to be passed over. *)
Fixpoint splitEORFrom (s : string) (skip : nat) : list string :=
  match s with
  | EmptyString => [EmptyString]
  | String c s' =>
      match skip with
      | S k => splitEORFrom s' k
      | O =>
          if matchEOR s then EmptyString :: splitEORFrom s' 4
          else match splitEORFrom s' 0 with
               | piece :: pieces => String c piece :: pieces
               | [] => [String c EmptyString]
               end
      end
  end.

Definition SplitEOR (s : string) : list string := splitEORFrom s 0.

(** The longest prefix of bytes satisfying [f], and the rest. *)
Fixpoint span (f : ascii -> bool) (s : string) : string * string :=
  match s with
  | EmptyString => (EmptyString, EmptyString)
  | String c s' =>
      if f c then let '(a, b) := span f s' in (String c a, b)
      else (EmptyString, s)
  end.

Definition notColonGt (c : ascii) : bool :=
  negb (Ascii.eqb c ":" || Ascii.eqb c ">").
Definition notLt (c : ascii) : bool := negb (Ascii.eqb c "<").

(** One match of the field pattern of [parseRecord] (a [<], one or more
    bytes other than [:] and [>], a [:], one or more digits, a [>], then
    the bytes up to the next [<]): the whole match and its three groups. *)
Record Submatch : Type := mkSubmatch {
  whole : string;
  group1 : string;
  group2 : string;
  group3 : string
}.

(** A match that starts at the head of [s], if there is one. *)
Definition matchField (s : string) : option Submatch :=
  match s with
  | String "<"%char r0 =>
      let '(name, r1) := span notColonGt r0 in
      match name, r1 with
      | String _ _, String ":"%char r2 =>
          let '(num, r3) := span Strconv.isDigit r2 in
          match num, r3 with
          | String _ _, String ">"%char r4 =>
              let '(data, _) := span notLt r4 in
              Some (mkSubmatch
                      (String "<" (name ++ String ":" (num ++ String ">" data)))
                      name num data)
          | _, _ => None
          end
      | _, _ => None
      end
  | _ => None
  end.

(** [fieldRegex.FindAllStringSubmatch(s, -1)]: successive non-overlapping matches,
    each the leftmost one after the previous match. *)
Fixpoint findAllFrom (s : string) (skip : nat) : list Submatch :=
  match s with
  | EmptyString => []
  | String _ s' =>
      match skip with
      | S k => findAllFrom s' k
      | O =>
          match matchField s with
          | Some m => m :: findAllFrom s' (String.length (whole m) - 1)
          | None => findAllFrom s' 0
          end
      end
  end.

Definition FindAllFields (s : string) : list Submatch := findAllFrom s 0.

End Regexp.

(** ** The data model of [adif.go] *)

Definition QslStatus : Type := string.

Definition QslYes : QslStatus := "Y".
Definition QslNo : QslStatus := "N".
Definition QslRequested : QslStatus := "R".
Definition QslInvalid : QslStatus := "I".
Definition QslEmpty : QslStatus := EmptyString.

Record QSO : Type := mkQSO {
  Call : string;
  QSODate : string;
  TimeOn : string;
  QSODateOff : string;
  TimeOff : string;
  Band : string;
  Mode : string;
  Freq : string;
  RSTSent : string;
  RSTRcvd : string;
  QTH : string;
  Name : string;
  Comment : string;
  GridSquare : string;
  Country : string;
  DXCC : string;
  MyGridSquare : string;
  StationCall : string;
  MyRig : string;
  MyAntenna : string;
  TxPwr : string;
  QslSent : QslStatus;
  QslRcvd : QslStatus;
  LotwSent : QslStatus;
  LotwRcvd : QslStatus;
  EqslSent : QslStatus;
  EqslRcvd : QslStatus;
  Timestamp : Time.Time
}.

(** [QSO{}]: every string empty, the zero [Time]. *)
Definition emptyQSO : QSO :=
  let e := EmptyString in
  mkQSO e e e e e e e e e e e e e e e e e e e e e e e e e e e Time.zero.

(** The fields of the record, for assignment. *)
Inductive Field : Type :=
| FCall | FQSODate | FTimeOn | FQSODateOff | FTimeOff | FBand | FMode | FFreq
| FRSTSent | FRSTRcvd | FQTH | FName | FComment | FGridSquare | FCountry
| FDXCC | FMyGridSquare | FStationCall | FMyRig | FMyAntenna | FTxPwr
| FQslSent | FQslRcvd | FLotwSent | FLotwRcvd | FEqslSent | FEqslRcvd.

(** [qso.f = v] *)
Definition setField (f : Field) (v : string) (q : QSO) : QSO :=
  let '(mkQSO a1 a2 a3 a4 a5 a6 a7 a8 a9 a10 a11 a12 a13 a14 a15 a16 a17 a18
              a19 a20 a21 a22 a23 a24 a25 a26 a27 ts) := q in
  match f with
  | FCall => mkQSO v a2 a3 a4 a5 a6 a7 a8 a9 a10 a11 a12 a13 a14 a15 a16 a17 a18 a19 a20 a21 a22 a23 a24 a25 a26 a27 ts
  | FQSODate => mkQSO a1 v a3 a4 a5 a6 a7 a8 a9 a10 a11 a12 a13 a14 a15 a16 a17 a18 a19 a20 a21 a22 a23 a24 a25 a26 a27 ts
  | FTimeOn => mkQSO a1 a2 v a4 a5 a6 a7 a8 a9 a10 a11 a12 a13 a14 a15 a16 a17 a18 a19 a20 a21 a22 a23 a24 a25 a26 a27 ts
  | FQSODateOff => mkQSO a1 a2 a3 v a5 a6 a7 a8 a9 a10 a11 a12 a13 a14 a15 a16 a17 a18 a19 a20 a21 a22 a23 a24 a25 a26 a27 ts
  | FTimeOff => mkQSO a1 a2 a3 a4 v a6 a7 a8 a9 a10 a11 a12 a13 a14 a15 a16 a17 a18 a19 a20 a21 a22 a23 a24 a25 a26 a27 ts
  | FBand => mkQSO a1 a2 a3 a4 a5 v a7 a8 a9 a10 a11 a12 a13 a14 a15 a16 a17 a18 a19 a20 a21 a22 a23 a24 a25 a26 a27 ts
  | FMode => mkQSO a1 a2 a3 a4 a5 a6 v a8 a9 a10 a11 a12 a13 a14 a15 a16 a17 a18 a19 a20 a21 a22 a23 a24 a25 a26 a27 ts
  | FFreq => mkQSO a1 a2 a3 a4 a5 a6 a7 v a9 a10 a11 a12 a13 a14 a15 a16 a17 a18 a19 a20 a21 a22 a23 a24 a25 a26 a27 ts
  | FRSTSent => mkQSO a1 a2 a3 a4 a5 a6 a7 a8 v a10 a11 a12 a13 a14 a15 a16 a17 a18 a19 a20 a21 a22 a23 a24 a25 a26 a27 ts
  | FRSTRcvd => mkQSO a1 a2 a3 a4 a5 a6 a7 a8 a9 v a11 a12 a13 a14 a15 a16 a17 a18 a19 a20 a21 a22 a23 a24 a25 a26 a27 ts
  | FQTH => mkQSO a1 a2 a3 a4 a5 a6 a7 a8 a9 a10 v a12 a13 a14 a15 a16 a17 a18 a19 a20 a21 a22 a23 a24 a25 a26 a27 ts
  | FName => mkQSO a1 a2 a3 a4 a5 a6 a7 a8 a9 a10 a11 v a13 a14 a15 a16 a17 a18 a19 a20 a21 a22 a23 a24 a25 a26 a27 ts
  | FComment => mkQSO a1 a2 a3 a4 a5 a6 a7 a8 a9 a10 a11 a12 v a14 a15 a16 a17 a18 a19 a20 a21 a22 a23 a24 a25 a26 a27 ts
  | FGridSquare => mkQSO a1 a2 a3 a4 a5 a6 a7 a8 a9 a10 a11 a12 a13 v a15 a16 a17 a18 a19 a20 a21 a22 a23 a24 a25 a26 a27 ts
  | FCountry => mkQSO a1 a2 a3 a4 a5 a6 a7 a8 a9 a10 a11 a12 a13 a14 v a16 a17 a18 a19 a20 a21 a22 a23 a24 a25 a26 a27 ts
  | FDXCC => mkQSO a1 a2 a3 a4 a5 a6 a7 a8 a9 a10 a11 a12 a13 a14 a15 v a17 a18 a19 a20 a21 a22 a23 a24 a25 a26 a27 ts
  | FMyGridSquare => mkQSO a1 a2 a3 a4 a5 a6 a7 a8 a9 a10 a11 a12 a13 a14 a15 a16 v a18 a19 a20 a21 a22 a23 a24 a25 a26 a27 ts
  | FStationCall => mkQSO a1 a2 a3 a4 a5 a6 a7 a8 a9 a10 a11 a12 a13 a14 a15 a16 a17 v a19 a20 a21 a22 a23 a24 a25 a26 a27 ts
  | FMyRig => mkQSO a1 a2 a3 a4 a5 a6 a7 a8 a9 a10 a11 a12 a13 a14 a15 a16 a17 a18 v a20 a21 a22 a23 a24 a25 a26 a27 ts
  | FMyAntenna => mkQSO a1 a2 a3 a4 a5 a6 a7 a8 a9 a10 a11 a12 a13 a14 a15 a16 a17 a18 a19 v a21 a22 a23 a24 a25 a26 a27 ts
  | FTxPwr => mkQSO a1 a2 a3 a4 a5 a6 a7 a8 a9 a10 a11 a12 a13 a14 a15 a16 a17 a18 a19 a20 v a22 a23 a24 a25 a26 a27 ts
  | FQslSent => mkQSO a1 a2 a3 a4 a5 a6 a7 a8 a9 a10 a11 a12 a13 a14 a15 a16 a17 a18 a19 a20 a21 v a23 a24 a25 a26 a27 ts
  | FQslRcvd => mkQSO a1 a2 a3 a4 a5 a6 a7 a8 a9 a10 a11 a12 a13 a14 a15 a16 a17 a18 a19 a20 a21 a22 v a24 a25 a26 a27 ts
  | FLotwSent => mkQSO a1 a2 a3 a4 a5 a6 a7 a8 a9 a10 a11 a12 a13 a14 a15 a16 a17 a18 a19 a20 a21 a22 a23 v a25 a26 a27 ts
  | FLotwRcvd => mkQSO a1 a2 a3 a4 a5 a6 a7 a8 a9 a10 a11 a12 a13 a14 a15 a16 a17 a18 a19 a20 a21 a22 a23 a24 v a26 a27 ts
  | FEqslSent => mkQSO a1 a2 a3 a4 a5 a6 a7 a8 a9 a10 a11 a12 a13 a14 a15 a16 a17 a18 a19 a20 a21 a22 a23 a24 a25 v a27 ts
  | FEqslRcvd => mkQSO a1 a2 a3 a4 a5 a6 a7 a8 a9 a10 a11 a12 a13 a14 a15 a16 a17 a18 a19 a20 a21 a22 a23 a24 a25 a26 v ts
  end.

(** [qso.Timestamp = t] *)
Definition setTimestamp (t : Time.Time) (q : QSO) : QSO :=
  let '(mkQSO a1 a2 a3 a4 a5 a6 a7 a8 a9 a10 a11 a12 a13 a14 a15 a16 a17 a18
              a19 a20 a21 a22 a23 a24 a25 a26 a27 _) := q in
  mkQSO a1 a2 a3 a4 a5 a6 a7 a8 a9 a10 a11 a12 a13 a14 a15 a16 a17 a18
        a19 a20 a21 a22 a23 a24 a25 a26 a27 t.

Record ADIFParser : Type := mkParser { QSOs : list QSO }.

Definition NewADIFParser : ADIFParser := mkParser [].

(** Go's [error] values, as far as the program builds them. *)
Inductive error : Type :=
| NewError (msg : string)
| WrapError (msg : string) (err : error).

(** ** The record parser *)

(** The [switch fieldName] of [parseRecord]: the field a (lower-cased) ADIF
    name stands for, with the value it is given. *)
Definition fieldOfName (fieldName fieldValue : string) : option (Field * string) :=
  if String.eqb fieldName "call" then Some (FCall, Strings.ToUpper fieldValue)
  else if String.eqb fieldName "qso_date" then Some (FQSODate, fieldValue)
  else if String.eqb fieldName "time_on" then Some (FTimeOn, fieldValue)
  else if String.eqb fieldName "qso_date_off" then Some (FQSODateOff, fieldValue)
  else if String.eqb fieldName "time_off" then Some (FTimeOff, fieldValue)
  else if String.eqb fieldName "band" then Some (FBand, fieldValue)
  else if String.eqb fieldName "mode" then Some (FMode, fieldValue)
  else if String.eqb fieldName "freq" then Some (FFreq, fieldValue)
  else if String.eqb fieldName "rst_sent" then Some (FRSTSent, fieldValue)
  else if String.eqb fieldName "rst_rcvd" then Some (FRSTRcvd, fieldValue)
  else if String.eqb fieldName "qth" then Some (FQTH, fieldValue)
  else if String.eqb fieldName "name" then Some (FName, fieldValue)
  else if String.eqb fieldName "comment" then Some (FComment, fieldValue)
  else if String.eqb fieldName "gridsquare" then Some (FGridSquare, fieldValue)
  else if String.eqb fieldName "country" then Some (FCountry, fieldValue)
  else if String.eqb fieldName "dxcc" then Some (FDXCC, fieldValue)
  else if String.eqb fieldName "my_gridsquare" then Some (FMyGridSquare, fieldValue)
  else if String.eqb fieldName "station_callsign" then Some (FStationCall, fieldValue)
  else if String.eqb fieldName "my_rig" then Some (FMyRig, fieldValue)
  else if String.eqb fieldName "my_antenna" then Some (FMyAntenna, fieldValue)
  else if String.eqb fieldName "tx_pwr" then Some (FTxPwr, fieldValue)
  else if String.eqb fieldName "qsl_sent" then Some (FQslSent, fieldValue)
  else if String.eqb fieldName "qsl_rcvd" then Some (FQslRcvd, fieldValue)
  else if String.eqb fieldName "lotw_qsl_sent" then Some (FLotwSent, fieldValue)
  else if String.eqb fieldName "lotw_qsl_rcvd" then Some (FLotwRcvd, fieldValue)
  else if String.eqb fieldName "eqsl_qsl_sent" then Some (FEqslSent, fieldValue)
  else if String.eqb fieldName "eqsl_qsl_rcvd" then Some (FEqslRcvd, fieldValue)
  else None.

(** The body of the loop over the matches; each [continue] leaves [qso] as
    it is. (A match of the pattern always has its four entries, so the test
    [len(match) < 4] never fires.) *)
Definition applyMatch (qso : QSO) (m : Regexp.Submatch) : QSO :=
  let fieldName := Strings.ToLower (Strings.TrimSpace (Regexp.group1 m)) in
  let lengthStr := Regexp.group2 m in
  let data := Regexp.group3 m in
  match Strconv.Atoi lengthStr with
  | None => qso
  | Some length =>
      if Strings.len data <? length then qso
      else
        let fieldValue := Strings.TrimSpace (Strings.sliceTo data length) in
        match fieldOfName fieldName fieldValue with
        | Some (f, v) => setField f v qso
        | None => qso
        end
  end.

Definition parseTimestamp (date timeOn : string) : option Time.Time :=
  if negb (Strings.len date =? 8) || negb (Strings.len timeOn =? 6) then None
  else
    match Strconv.Atoi (Strings.slice date 0 4) with None => None | Some year =>
    match Strconv.Atoi (Strings.slice date 4 6) with None => None | Some month =>
    match Strconv.Atoi (Strings.slice date 6 8) with None => None | Some day =>
    match Strconv.Atoi (Strings.slice timeOn 0 2) with None => None | Some hour =>
    match Strconv.Atoi (Strings.slice timeOn 2 4) with None => None | Some minute =>
    match Strconv.Atoi (Strings.slice timeOn 4 6) with None => None | Some second =>
      Some (Time.Date year month day hour minute second)
    end end end end end end.

(** The loop of [parseRecord] over the matches of the field pattern, from
    the empty record. *)
Definition mapFields (record : string) : QSO :=
  fold_left applyMatch (Regexp.FindAllFields record) emptyQSO.

(** "Parse timestamp for easier searching": the timestamp is set when both
    strings are there and [parseTimestamp] has no error. *)
Definition deriveTimestamp (qso : QSO) : QSO :=
  if negb (Strings.isEmpty (QSODate qso)) && negb (Strings.isEmpty (TimeOn qso))
  then match parseTimestamp (QSODate qso) (TimeOn qso) with
       | Some timestamp => setTimestamp timestamp qso
       | None => qso
       end
  else qso.

(** "Validate required fields": the record is returned together with the
    error, also when the error is not nil. *)
Definition validateRequired (qso : QSO) : QSO * option error :=
  if Strings.isEmpty (Call qso) || Strings.isEmpty (QSODate qso)
  then (qso, Some (NewError "missing required fields (CALL or QSO_DATE)"))
  else (qso, None).

Definition parseRecord (record : string) : QSO * option error :=
  validateRequired (deriveTimestamp (mapFields record)).

(** ** The log parser *)

(** The body of the loop over the record chunks. *)
Definition parseChunk (p : ADIFParser) (record : string) : ADIFParser :=
  let record := Strings.TrimSpace record in
  if Strings.isEmpty record then p
  else
    match parseRecord record with
    | (_, Some _) => p
    | (qso, None) => mkParser (QSOs p ++ [qso])
    end.

(** The text after the header, when there is one: the first statements of
    [parseContent], on ASCII text, where the upper-case copy has the
    length of [content] and the slice is in range. [AnyText.stripHeader]
    has the same statements on any text. *)
Definition stripHeader (content : string) : string :=
  let eohIndex := Strings.Index (Strings.ToUpper content) "<EOH>" in
  if negb (eohIndex =? -1) then Strings.sliceFrom content (eohIndex + 5)
  else content.

Definition parseContent (p : ADIFParser) (content : string)
  : ADIFParser * option error :=
  let content := stripHeader content in
  let records := Regexp.SplitEOR content in
  (fold_left parseChunk records p, None).

(** An [io.Reader], by what [io.ReadAll] gets from it. *)
Inductive Reader : Type :=
| ReadsAll (content : string)
| ReadFails (err : error).

Definition ParseFile (p : ADIFParser) (reader : Reader)
  : ADIFParser * option error :=
  match reader with
  | ReadFails err => (p, Some (WrapError "failed to read ADIF file: " err))
  | ReadsAll content => parseContent p content
  end.

(** ** The query engine *)

(** *** SearchQSO *)

(** The three variables of the search loop. *)
Record SearchState : Type := mkSearchState {
  bestMatch : QSO;
  bestTimeDiff : Time.Duration;
  found : bool
}.

(** The absolute value as the loop computes it: a 64-bit negation. *)
Definition absDuration (timeDiff : Time.Duration) : Time.Duration :=
  if timeDiff <? 0 then wrap64 (- timeDiff) else timeDiff.

Definition searchStep (callSign : string) (searchTime : Time.Time)
    (tolerance : Time.Duration) (st : SearchState) (qso : QSO) : SearchState :=
  if negb (String.eqb (Call qso) callSign) then st
  else if negb (Time.IsZero (Timestamp qso)) then
    let timeDiff := absDuration (Time.Sub (Timestamp qso) searchTime) in
    if timeDiff <=? tolerance then
      if negb (found st) || (timeDiff <? bestTimeDiff st)
      then mkSearchState qso timeDiff true
      else st
    else st
  else st.

Definition SearchQSO (p : ADIFParser) (callSign : string)
    (searchTime : Time.Time) (toleranceMinutes : Z) : list QSO :=
  let callSign := Strings.ToUpper (Strings.TrimSpace callSign) in
  let tolerance := wrap64 (toleranceMinutes * Time.Minute) in
  let st := fold_left (searchStep callSign searchTime tolerance) (QSOs p)
                      (mkSearchState emptyQSO 0 false) in
  if found st then [bestMatch st] else [].

(** *** The bubble sort of GetLatestQSOs and GetPaperQSLHallOfFame

    Both functions run the same two loops over a slice, with their own test
    [outOfOrder a b] on neighbours. *)

Section BubbleSort.

Context {A : Type} (outOfOrder : A -> A -> bool).

(** [if outOfOrder(s[j], s[j+1]) { s[j], s[j+1] = s[j+1], s[j] }];
    the loops keep [j+1] below the length. *)
Definition swapIfOutOfOrder (s : list A) (j : nat) : list A :=
  match s !! j, s !! S j with
  | Some a, Some b =>
      if outOfOrder a b then <[S j := a]> (<[j := b]> s) else s
  | _, _ => s
  end.

(** [for j := 0; j < len(s)-i-1; j++ { ... }] *)
Definition bubblePass (s : list A) (i : nat) : list A :=
  fold_left swapIfOutOfOrder (seq 0 (length s - i - 1)) s.

(** [for i := 0; i < len(s)-1; i++ { ... }] *)
Definition bubbleSort (s : list A) : list A :=
  fold_left bubblePass (seq 0 (length s - 1)) s.

(** Neighbours the test leaves where they are. *)
Definition inOrder (a b : A) : Prop := outOfOrder a b = false.

(** One pass read off the list rather than off the indices: the first [k]
    neighbour tests, carrying along the element that sinks.
    [bubblePass_sink] proves it equal to the loop. *)
Fixpoint sink (k : nat) (s : list A) : list A :=
  match k, s with
  | S k', a :: b :: t =>
      if outOfOrder a b then b :: sink k' (a :: t) else a :: sink k' (b :: t)
  | _, _ => s
  end.

End BubbleSort.

(** *** GetLatestQSOs *)

(** [s[:hi]] on a slice whose capacity is its length. *)
Definition listSliceTo {A : Type} (s : list A) (hi : Z) : Outcome (list A) :=
  if (hi <? 0) || (Z.of_nat (length s) <? hi) then Panics
  else Returns (take (Z.to_nat hi) s).

Definition olderThan (a b : QSO) : bool :=
  Time.Before (Timestamp a) (Timestamp b).

Definition GetLatestQSOs (p : ADIFParser) (limit : Z) : Outcome (list QSO) :=
  if Z.of_nat (length (QSOs p)) =? 0 then Returns []
  else
    let qsos := bubbleSort olderThan (QSOs p) in
    if Z.of_nat (length qsos) <? limit then Returns qsos
    else listSliceTo qsos limit.

(** *** GetPaperQSLHallOfFame *)

(** The body of the first loop, on the map [seen]. *)
Definition hallStep (seen : gmap string QSO) (qso : QSO) : gmap string QSO :=
  if String.eqb (QslRcvd qso) QslYes then
    match seen !! Call qso with
    | None => <[Call qso := qso]> seen
    | Some existing =>
        if negb (Strings.isEmpty (Name qso)) && Strings.isEmpty (Name existing)
        then <[Call qso := qso]> seen
        else seen
    end
  else seen.

Definition callAfter (a b : QSO) : bool := Strings.gt (Call a) (Call b).

(** Go ranges over a map in an order it does not specify: [rangeOrder] is
    the order of one run, any rearrangement of the entries. *)
Definition GetPaperQSLHallOfFame
    (rangeOrder : list (string * QSO) -> list (string * QSO))
    (p : ADIFParser) : list QSO :=
  let seen := fold_left hallStep (QSOs p) (∅ : gmap string QSO) in
  let result := map snd (rangeOrder (map_to_list seen)) in
  bubbleSort callAfter result.

(** *** Formatting *)

Definition FormatDate (qso : QSO) : string :=
  if Strings.len (QSODate qso) =? 8 then
    (Strings.slice (QSODate qso) 0 4 ++ "-" ++ Strings.slice (QSODate qso) 4 6
       ++ "-" ++ Strings.slice (QSODate qso) 6 8)%string
  else QSODate qso.

Definition FormatTime (qso : QSO) : string :=
  if 4 <=? Strings.len (TimeOn qso) then
    (Strings.slice (TimeOn qso) 0 2 ++ ":" ++ Strings.slice (TimeOn qso) 2 4)%string
  else TimeOn qso.

(** ** The reload coordinator of [web.go]

    One reload at a time: the mutex of [ReloadableParser] only orders the
    single assignment to [rp.parser] with the readers, which state passing
    makes explicit. *)

(** [parser] is a pointer in the source; [None] is nil. *)
Record ReloadableParser : Type := mkReloadable {
  parser : option ADIFParser;
  filePath : string
}.

(** What [os.Open] gives for a path: an error, or a file to read. *)
Definition FileSystem : Type := string -> error + Reader.

Definition reload (fs : FileSystem) (rp : ReloadableParser)
  : ReloadableParser * option error :=
  match fs (filePath rp) with
  | inl err => (rp, Some (WrapError "failed to open ADIF file: " err))
  | inr file =>
      let parser := NewADIFParser in
      match ParseFile parser file with
      | (_, Some err) => (rp, Some (WrapError "failed to parse ADIF file: " err))
      | (parser, None) => (mkReloadable (Some parser) (filePath rp), None)
      end
  end.

Definition getParser (rp : ReloadableParser) : option ADIFParser := parser rp.

Definition NewReloadableParser (fs : FileSystem) (path : string)
  : option ReloadableParser * option error :=
  let rp := mkReloadable None path in
  match reload fs rp with
  | (_, Some err) => (None, Some err)
  | (rp, None) => (Some rp, None)
  end.

(** ** The vocabulary of the specification

    The definitions below follow the words of the specification; the
    theorems compare them with the code above. *)

(** *** parse *)

(** The record chunks of a document: the text after the header, cut at the
    end-of-record markers, trimmed, blank chunks left out. *)
Definition spec_recordChunks (content : string) : list string :=
  List.filter (fun r => negb (Strings.isEmpty r))
    (map Strings.TrimSpace (Regexp.SplitEOR (stripHeader content))).

(** The record a chunk gives after field mapping, valid or not. *)
Definition spec_mappedRecord (chunk : string) : QSO := fst (parseRecord chunk).

(** A record is valid when [call] and [qsoDate] are non-empty. *)
Definition spec_valid (q : QSO) : bool :=
  negb (Strings.isEmpty (Call q)) && negb (Strings.isEmpty (QSODate q)).

Definition spec_validRecords (content : string) : list QSO :=
  List.filter spec_valid (map spec_mappedRecord (spec_recordChunks content)).

(** A string of white space only. *)
Fixpoint allSpace (s : string) : bool :=
  match s with
  | EmptyString => true
  | String c s' => Strings.isSpace c && allSpace s'
  end.

(** A document with nothing but white space after its header. *)
Definition spec_headerOnly (content : string) : Prop :=
  Strings.TrimSpace (stripHeader content) = EmptyString.

(** *** timestamp *)

Definition allDigits (s : string) : bool :=
  match Strconv.digits s 0 with Some _ => true | None => false end.

(** Well-formed in the words of the specification: 8 and 6 characters, all
    of them digits, the month within 1 to 12. *)
Definition spec_wellFormed (date timeOn : string) : bool :=
  (Strings.len date =? 8) && (Strings.len timeOn =? 6)
  && allDigits date && allDigits timeOn
  && match Strconv.digits (Strings.slice date 4 6) 0 with
     | Some month => (1 <=? month) && (month <=? 12)
     | None => false
     end.

(** An optional sign and then one or more decimal digits. *)
Definition signedDecimal (s : string) : bool :=
  match s with
  | String c s' =>
      if Ascii.eqb c "-" || Ascii.eqb c "+"
      then negb (Strings.isEmpty s') && allDigits s'
      else allDigits s
  | EmptyString => false
  end.

(** What the code asks of the two strings: 8 and 6 bytes, each of the six
    parts a signed decimal number. *)
Definition acceptedDateTime (date timeOn : string) : bool :=
  (Strings.len date =? 8) && (Strings.len timeOn =? 6)
  && signedDecimal (Strings.slice date 0 4)
  && signedDecimal (Strings.slice date 4 6)
  && signedDecimal (Strings.slice date 6 8)
  && signedDecimal (Strings.slice timeOn 0 2)
  && signedDecimal (Strings.slice timeOn 2 4)
  && signedDecimal (Strings.slice timeOn 4 6).

(** *** search *)

(** The distance between a record and the target time, in nanoseconds. *)
Definition timeGap (t : Time.Time) (q : QSO) : Z := Z.abs (Timestamp q - t).

(** A record the search may return: the call sign, a non-zero timestamp,
    and a gap of at most [tol] minutes. *)
Definition spec_candidate (c : string) (t : Time.Time) (tol : Z) (q : QSO) : Prop :=
  Call q = c /\ Timestamp q <> 0 /\ timeGap t q <= tol * Time.Minute.

(** [r] is the first record of [l] among the candidates closest to [t]. *)
Definition spec_closest (c : string) (t : Time.Time) (tol : Z)
    (l : list QSO) (r : QSO) : Prop :=
  exists l1 l2,
    l = l1 ++ r :: l2 /\ spec_candidate c t tol r
    /\ (forall q, In q l1 -> spec_candidate c t tol q -> timeGap t r < timeGap t q)
    /\ (forall q, In q l2 -> spec_candidate c t tol q -> timeGap t r <= timeGap t q).

(** What the search loop has established after the records [done]. *)
Definition searchInv (c : string) (t : Time.Time) (tol : Z)
    (done : list QSO) (st : SearchState) : Prop :=
  (found st = false /\ forall q, In q done -> ~ spec_candidate c t tol q)
  \/ (found st = true
      /\ bestTimeDiff st = timeGap t (bestMatch st)
      /\ spec_closest c t tol done (bestMatch st)).

(** *** latest *)

Definition spec_newestFirst (s : list QSO) : Prop :=
  StronglySorted (fun a b => Timestamp b <= Timestamp a) s.

(** Records with the same timestamp are in the same order in both lists. *)
Definition spec_sameOrderAmongEqual (l s : list QSO) : Prop :=
  forall t, List.filter (fun q => Timestamp q =? t) s
            = List.filter (fun q => Timestamp q =? t) l.

(** [s] is a stable sort of [l] by timestamp, newest first. *)
Definition spec_stableSort (l s : list QSO) : Prop :=
  Permutation s l /\ spec_newestFirst s /\ spec_sameOrderAmongEqual l s.

(** Every record with a zero timestamp comes after every record with a
    non-zero one. *)
Definition spec_zeroTimestampsLast (s : list QSO) : Prop :=
  forall (i j : nat) (a b : QSO),
    s !! i = Some a -> s !! j = Some b ->
    Timestamp a = 0 -> Timestamp b <> 0 -> (j < i)%nat.

(** Every record with a zero timestamp comes after every record with a
    timestamp later than the zero time. *)
Definition zeroAfterLater (s : list QSO) : Prop :=
  forall (i j : nat) (a b : QSO),
    s !! i = Some a -> s !! j = Some b ->
    Timestamp a = 0 -> 0 < Timestamp b -> (j < i)%nat.

(** *** confirmedUnique *)

(** Does [q] count for the call sign [c]: is its [qslRcvd] Y and its call
    sign [c]? *)
Definition confirms (c : string) (q : QSO) : bool :=
  String.eqb (QslRcvd q) QslYes && String.eqb (Call q) c.

(** The records of call sign [c] with [qslRcvd = Y], in collection order. *)
Definition spec_confirmed (c : string) (l : list QSO) : list QSO :=
  List.filter (confirms c) l.

(** Among candidates of one call sign: the first with a name, and the
    first of all when none has a name. *)
Definition spec_preferred (cands : list QSO) : option QSO :=
  match List.find (fun q => negb (Strings.isEmpty (Name q))) cands with
  | Some q => Some q
  | None => head cands
  end.

Definition spec_retained (c : string) (l : list QSO) : option QSO :=
  spec_preferred (spec_confirmed c l).

(** Strictly ascending call signs. *)
Definition callBefore (a b : QSO) : Prop := String_as_OT.lt (Call a) (Call b).

(** ** Inputs of the examples *)

Definition w1aw_record : string :=
  "<call:4>W1AW <qso_date:8>20240115 <time_on:6>143000".

(** A month of 13. *)
Definition month13_record : string :=
  "<call:4>W1AW <qso_date:8>20241301 <time_on:6>120000".

(** Two records: one without [time_on], one dated in year 0. *)
Definition year0_log : string :=
  "<call:4>W1AW <qso_date:8>20240115 <eor> <call:5>K1ABC <qso_date:8>00000101 <time_on:6>000000 <eor>".

(** A document nothing can be read from. *)
Definition unreadable_log : string := "this is not an ADIF document".

Definition sample_log : string :=
  "Exported log <adif_ver:5>3.1.0 <EOH> <call:4>w1aw <qso_date:8>20240115 <time_on:6>143000 <eor> <call:5>K1ABC <band:3>20m <eor> <CALL:5>M0XYZ <QSO_DATE:8>20240116 <TIME_ON:6>090000 <qsl_rcvd:1>Y <EOR> ".

(** The record of [w1aw_record]: W1AW on 2024-01-15 at 14:30:00 UTC. *)
Definition w1aw_qso : QSO := fst (parseRecord w1aw_record).

(** What [time.Parse] makes of the form input 2400-01-01T00:00. *)
Definition year2400 : Time.Time := Time.Date 2400 1 1 0 0 0.

(** Two confirmed records of M0XYZ, the first without a name. *)
Definition m0xyz_unnamed : QSO :=
  setField FQslRcvd "Y" (setField FCall "M0XYZ" emptyQSO).
Definition m0xyz_alice : QSO := setField FName "Alice" m0xyz_unnamed.

(** A file system with one file, the sample log. *)
Definition sample_fs : FileSystem :=
  fun path =>
    if String.eqb path "log.adi" then inr (ReadsAll sample_log)
    else inl (NewError "open: no such file or directory").

Definition header_only_log : string := "Exported log <adif_ver:5>3.1.0 <eoh>  ".

(** * The rest of the query engine and of the coordinator

    The functions of [adif.go] and [web.go] that the definitions above do
    not cover. *)

(** ** Lookups and counts *)

(** [GetQSOsByCallsign]: the loop appends the records of the call sign. *)
Definition GetQSOsByCallsign (p : ADIFParser) (callSign : string) : list QSO :=
  let callSign := Strings.ToUpper (Strings.TrimSpace callSign) in
  fold_left (fun results qso =>
               if String.eqb (Call qso) callSign then results ++ [qso] else results)
            (QSOs p) [].

Definition GetTotalQSOCount (p : ADIFParser) : Z := Z.of_nat (length (QSOs p)).

(** The body of the loop of [GetUniqueCountriesCount], on the map
    [countries]. *)
Definition countryStep (countries : gmap string bool) (qso : QSO)
  : gmap string bool :=
  if negb (Strings.isEmpty (Country qso)) then <[Country qso := true]> countries
  else countries.

Definition GetUniqueCountriesCount (p : ADIFParser) : Z :=
  Z.of_nat (size (fold_left countryStep (QSOs p) (∅ : gmap string bool))).

Definition GetQSOs (p : ADIFParser) : list QSO := QSOs p.

(** The body of the loop of [GetLatestQSO]; [latest] points into the
    slice and is only read, so it is the record it points to. *)
Definition latestStep (latest : option QSO) (qso : QSO) : option QSO :=
  if Time.IsZero (Timestamp qso) then latest
  else match latest with
       | None => Some qso
       | Some l => if Time.After (Timestamp qso) (Timestamp l) then Some qso
                   else latest
       end.

Definition GetLatestQSO (p : ADIFParser) : option QSO :=
  if Z.of_nat (length (QSOs p)) =? 0 then None
  else fold_left latestStep (QSOs p) None.

(** The distinct non-empty country names of a collection. *)
Definition spec_countries (l : list QSO) : list string :=
  remove_dups (List.filter (fun c => negb (Strings.isEmpty c)) (map Country l)).

(** [r] is the first record of [l] among those with the latest non-zero
    timestamp. *)
Definition spec_latest (l : list QSO) (r : QSO) : Prop :=
  exists l1 l2,
    l = l1 ++ r :: l2 /\ Timestamp r <> 0
    /\ (forall q, In q l1 -> Timestamp q <> 0 -> Timestamp q < Timestamp r)
    /\ (forall q, In q l2 -> Timestamp q <> 0 -> Timestamp q <= Timestamp r).

(** What the loop of [GetLatestQSO] has established after the records
    [done]. *)
Definition latestInv (done : list QSO) (latest : option QSO) : Prop :=
  match latest with
  | None => forall q, In q done -> Timestamp q = 0
  | Some r => spec_latest done r
  end.


(** ** The periodic reload of [startReloading] *)

(** The last file system of [ticks] in which the file of [path] opens and
    reads, with what is read. *)
Fixpoint lastReadable (path : string) (ticks : list FileSystem) : option string :=
  match ticks with
  | [] => None
  | fs :: ticks' =>
      match lastReadable path ticks' with
      | Some content => Some content
      | None => match fs path with
                | inr (ReadsAll content) => Some content
                | _ => None
                end
      end
  end.

(** ** Reading a field *)

(** [qso.f] *)
Definition getField (f : Field) (q : QSO) : string :=
  match f with
  | FCall => Call q | FQSODate => QSODate q | FTimeOn => TimeOn q
  | FQSODateOff => QSODateOff q | FTimeOff => TimeOff q | FBand => Band q
  | FMode => Mode q | FFreq => Freq q | FRSTSent => RSTSent q
  | FRSTRcvd => RSTRcvd q | FQTH => QTH q | FName => Name q
  | FComment => Comment q | FGridSquare => GridSquare q | FCountry => Country q
  | FDXCC => DXCC q | FMyGridSquare => MyGridSquare q
  | FStationCall => StationCall q | FMyRig => MyRig q | FMyAntenna => MyAntenna q
  | FTxPwr => TxPwr q | FQslSent => QslSent q | FQslRcvd => QslRcvd q
  | FLotwSent => LotwSent q | FLotwRcvd => LotwRcvd q | FEqslSent => EqslSent q
  | FEqslRcvd => EqslRcvd q
  end.

(** A record as the parser leaves it: no field with white space at either
    end, the call sign in upper case. *)
Definition normalised (q : QSO) : Prop :=
  (forall f, Strings.TrimSpace (getField f q) = getField f q)
  /\ Strings.ToUpper (Call q) = Call q.

(** [trimLeft] leaves a string that is empty or begins with a byte that is
    not white space. *)
Definition startsClean (s : string) : Prop :=
  match s with
  | EmptyString => True
  | String c _ => Strings.isSpace c = false
  end.

(** * Text that is not ASCII

    On text with bytes from 0x80 on, [strings.ToUpper] decodes UTF-8, maps
    each rune and encodes the result, which can have another length than
    the text; [parseContent] takes the index of the header marker in that
    copy and slices the text itself with it. The definitions of this part
    embed that path: UTF-8 as package [unicode/utf8] has it, the case of
    runes from 0x80 on as a parameter (the tables of package [unicode]),
    and the slice with its bounds check. *)

Module Utf8.

Definition RuneError : Z := 65533.
Definition RuneSelf : Z := 128.
Definition MaxRune : Z := 1114111.

Definition byteOf (c : ascii) : Z := Z.of_N (N_of_ascii c).
Definition charOf (b : Z) : ascii := ascii_of_N (Z.to_N b).

Definition between (lo hi b : Z) : bool := (lo <=? b) && (b <=? hi).

(** A continuation byte: 0x80 to 0xBF. *)
Definition isCont (b : Z) : bool := between 128 191 b.

(** [utf8.DecodeRuneInString]: the rune at the head of [s] and its width in
    bytes; [(RuneError, 1)] when the encoding is invalid, [(RuneError, 0)]
    on the empty string. The second byte of a sequence has its own range
    after the lead bytes 0xE0, 0xED, 0xF0 and 0xF4. *)
Definition DecodeRuneInString (s : string) : Z * nat :=
  match s with
  | EmptyString => (RuneError, 0%nat)
  | String c0 s1 =>
      let b0 := byteOf c0 in
      if b0 <? 128 then (b0, 1%nat)
      else if b0 <? 194 then (RuneError, 1%nat)
      else if b0 <? 224 then
        match s1 with
        | String c1 _ =>
            let b1 := byteOf c1 in
            if isCont b1
            then (Z.lor (Z.shiftl (Z.land b0 31) 6) (Z.land b1 63), 2%nat)
            else (RuneError, 1%nat)
        | _ => (RuneError, 1%nat)
        end
      else if b0 <? 240 then
        match s1 with
        | String c1 (String c2 _) =>
            let b1 := byteOf c1 in
            let b2 := byteOf c2 in
            let lo := if b0 =? 224 then 160 else 128 in
            let hi := if b0 =? 237 then 159 else 191 in
            if between lo hi b1 && isCont b2
            then (Z.lor (Z.shiftl (Z.land b0 15) 12)
                    (Z.lor (Z.shiftl (Z.land b1 63) 6) (Z.land b2 63)), 3%nat)
            else (RuneError, 1%nat)
        | _ => (RuneError, 1%nat)
        end
      else if b0 <? 245 then
        match s1 with
        | String c1 (String c2 (String c3 _)) =>
            let b1 := byteOf c1 in
            let b2 := byteOf c2 in
            let b3 := byteOf c3 in
            let lo := if b0 =? 240 then 144 else 128 in
            let hi := if b0 =? 244 then 143 else 191 in
            if between lo hi b1 && isCont b2 && isCont b3
            then (Z.lor (Z.shiftl (Z.land b0 7) 18)
                    (Z.lor (Z.shiftl (Z.land b1 63) 12)
                       (Z.lor (Z.shiftl (Z.land b2 63) 6) (Z.land b3 63))), 4%nat)
            else (RuneError, 1%nat)
        | _ => (RuneError, 1%nat)
        end
      else (RuneError, 1%nat)
  end.

Definition cont (r : Z) (shift : Z) : ascii :=
  charOf (Z.lor 128 (Z.land (Z.shiftr r shift) 63)).

Definition encode3 (r : Z) : string :=
  String (charOf (Z.lor 224 (Z.shiftr r 12)))
    (String (cont r 6) (String (cont r 0) EmptyString)).

(** [utf8.AppendRune]: the bytes of a rune; a surrogate or a value outside
    the range of runes is written as [RuneError]. *)
Definition EncodeRune (r : Z) : string :=
  if (r <? 0) || (MaxRune <? r) || between 55296 57343 r then encode3 RuneError
  else if r <? 128 then String (charOf r) EmptyString
  else if r <? 2048 then
    String (charOf (Z.lor 192 (Z.shiftr r 6))) (String (cont r 0) EmptyString)
  else if r <? 65536 then encode3 r
  else
    String (charOf (Z.lor 240 (Z.shiftr r 18)))
      (String (cont r 12) (String (cont r 6) (String (cont r 0) EmptyString))).

End Utf8.

Module AnyText.

Section CaseTables.

(** [unicode.ToUpper] on the runes from 0x80 on. *)
Variable upperRune : Z -> Z.

(** [unicode.ToUpper]: the ASCII letters, then the tables; [RuneError]
    (U+FFFD) has no case. *)
Definition toUpperRune (r : Z) : Z :=
  if r <? Utf8.RuneSelf then Utf8.byteOf (Strings.toUpperByte (Utf8.charOf r))
  else if r =? Utf8.RuneError then Utf8.RuneError
  else upperRune r.

(** [strings.Map]: every rune of [s], decoded as the [range] over a string
    decodes it (an invalid byte is [RuneError], one byte wide), is replaced
    by the bytes of its image; a negative image is dropped. [skip] counts
    the bytes of the current rune still to be passed over. *)
Fixpoint mapFrom (mapping : Z -> Z) (s : string) (skip : nat) : string :=
  match s with
  | EmptyString => EmptyString
  | String _ s' =>
      match skip with
      | S k => mapFrom mapping s' k
      | O =>
          let '(r, width) := Utf8.DecodeRuneInString s in
          let image := mapping r in
          let bytes := if image <? 0 then EmptyString else Utf8.EncodeRune image in
          String.append bytes (mapFrom mapping s' (Nat.pred width))
      end
  end.

Definition Map (mapping : Z -> Z) (s : string) : string := mapFrom mapping s 0.

(** [strings.ToUpper]: the byte map on ASCII text, [Map] otherwise. *)
Definition ToUpper (s : string) : string :=
  if Strings.isASCII s then Strings.ToUpper s else Map toUpperRune s.

(** [s[lo:]], with its bounds check. *)
Definition sliceFrom (s : string) (lo : Z) : Outcome string :=
  if (lo <? 0) || (Strings.len s <? lo) then Panics
  else Returns (Strings.sliceFrom s lo).

(** The first statements of [parseContent]: the index of the marker is
    taken in the upper-case copy and applied to [content]. *)
Definition stripHeader (content : string) : Outcome string :=
  let eohIndex := Strings.Index (ToUpper content) "<EOH>" in
  if negb (eohIndex =? -1) then sliceFrom content (eohIndex + 5)
  else Returns content.

(** [parseContent]; the records are read by [parseChunk], with package
    [strings] on ASCII: they are Go's when the text after the header is
    ASCII. *)
Definition parseContent (p : ADIFParser) (content : string)
  : Outcome (ADIFParser * option error) :=
  match stripHeader content with
  | Panics => Panics
  | Returns content =>
      let records := Regexp.SplitEOR content in
      Returns (fold_left parseChunk records p, None)
  end.

Definition ParseFile (p : ADIFParser) (reader : Reader)
  : Outcome (ADIFParser * option error) :=
  match reader with
  | ReadFails err =>
      Returns (p, Some (WrapError "failed to read ADIF file: " err))
  | ReadsAll content => parseContent p content
  end.

(** [reload]: a panic of [ParseFile] is not recovered. *)
Definition reload (fs : FileSystem) (rp : ReloadableParser)
  : Outcome (ReloadableParser * option error) :=
  match fs (filePath rp) with
  | inl err => Returns (rp, Some (WrapError "failed to open ADIF file: " err))
  | inr file =>
      let parser := NewADIFParser in
      match ParseFile parser file with
      | Panics => Panics
      | Returns (_, Some err) =>
          Returns (rp, Some (WrapError "failed to parse ADIF file: " err))
      | Returns (parser, None) =>
          Returns (mkReloadable (Some parser) (filePath rp), None)
      end
  end.

Definition NewReloadableParser (fs : FileSystem) (path : string)
  : Outcome (option ReloadableParser * option error) :=
  let rp := mkReloadable None path in
  match reload fs rp with
  | Panics => Panics
  | Returns (_, Some err) => Returns (None, Some err)
  | Returns (rp, None) => Returns (Some rp, None)
  end.

(** The goroutine of [startReloading] calls [reload] at every tick and
    logs an error; the ticks are given by the file system each of them
    finds. A panic ends the program. *)
Fixpoint startReloading (rp : ReloadableParser) (ticks : list FileSystem)
  : Outcome ReloadableParser :=
  match ticks with
  | [] => Returns rp
  | fs :: ticks' =>
      match reload fs rp with
      | Panics => Panics
      | Returns (rp', _) => startReloading rp' ticks'
      end
  end.

End CaseTables.

End AnyText.

(** ** Inputs that are not ASCII *)

(** The byte of e with acute accent and of o with circumflex in
    ISO 8859-1; alone they are invalid UTF-8. *)
Definition latin1_e_acute : string := String (ascii_of_nat 233) EmptyString.
Definition latin1_o_circumflex : string := String (ascii_of_nat 244) EmptyString.

(** A log with a header in ISO 8859-1 and one record. *)
Definition latin1_header_log : string :=
  ("Caf" ++ latin1_e_acute
   ++ " Logger <eoh> <call:4>W1AW <qso_date:8>20240115 <time_on:6>143000 <eor>")%string.

(** The same log with the header in ASCII. *)
Definition ascii_header_log : string :=
  "Cafe Logger <eoh> <call:4>W1AW <qso_date:8>20240115 <time_on:6>143000 <eor>".

(** A header in ISO 8859-1 and no record. *)
Definition latin1_header_only : string :=
  ("J" ++ latin1_e_acute ++ "r" ++ latin1_o_circumflex ++ "me <eoh> ")%string.

(** A file system whose one file is [latin1_header_only]. *)
Definition latin1_fs : FileSystem :=
  fun path =>
    if String.eqb path "log.adi" then inr (ReadsAll latin1_header_only)
    else inl (NewError "open: no such file or directory").

(** A header in UTF-8 with the letter U+0250 twice, whose upper case
    U+2C6F takes three bytes instead of two. *)
Definition ipa_header_only : string := "IPA ɐɐ <eoh> ".

(** The case table on the runes of [ipa_header_only]. *)
Definition upperOfTurnedA (r : Z) : Z := if r =? 592 then 11375 else r.

(** A file system without files. *)
Definition empty_fs : FileSystem :=
  fun _ => inl (NewError "open: no such file or directory").

(** * Theorems *)

(** ** The bubble sort sorts, and is stable *)

Section BubbleSortTheory.

Context {A : Type} (outOfOrder : A -> A -> bool).

Lemma swapAt_middle (pre : list A) (a b : A) (t : list A) :
  swapIfOutOfOrder outOfOrder (pre ++ a :: b :: t) (length pre)
  = pre ++ (if outOfOrder a b then b :: a :: t else a :: b :: t).
Proof.
  unfold swapIfOutOfOrder.
  rewrite (lookup_app_r pre) by lia.
  rewrite (lookup_app_r pre) by lia.
  replace (length pre - length pre)%nat with 0%nat by lia.
  replace (S (length pre) - length pre)%nat with 1%nat by lia.
  simpl. destruct (outOfOrder a b); [|reflexivity].
  rewrite (insert_app_r_alt pre) by lia.
  rewrite (insert_app_r_alt pre) by lia.
  replace (length pre - length pre)%nat with 0%nat by lia.
  replace (S (length pre) - length pre)%nat with 1%nat by lia.
  reflexivity.
Qed.

Lemma swapAt_beyond (s : list A) (j : nat) :
  (length s <= S j)%nat -> swapIfOutOfOrder outOfOrder s j = s.
Proof.
  intros H. unfold swapIfOutOfOrder.
  rewrite (lookup_ge_None_2 s (S j)) by lia.
  destruct (s !! j); reflexivity.
Qed.

Lemma fold_swapAt_beyond (k j : nat) (s : list A) :
  (length s <= S j)%nat -> fold_left (swapIfOutOfOrder outOfOrder) (seq j k) s = s.
Proof.
  revert j s. induction k as [|k IH]; intros j s H; simpl; [reflexivity|].
  rewrite swapAt_beyond by lia. apply IH. lia.
Qed.

Lemma fold_swapAt_sink (k : nat) (pre rest : list A) :
  fold_left (swapIfOutOfOrder outOfOrder) (seq (length pre) k) (pre ++ rest) = pre ++ sink outOfOrder k rest.
Proof.
  revert pre rest. induction k as [|k IH]; intros pre rest; simpl.
  - reflexivity.
  - destruct rest as [|a [|b t]].
    + rewrite swapAt_beyond by (rewrite length_app; simpl; lia).
      apply fold_swapAt_beyond. rewrite length_app; simpl; lia.
    + rewrite swapAt_beyond by (rewrite length_app; simpl; lia).
      apply fold_swapAt_beyond. rewrite length_app; simpl; lia.
    + rewrite swapAt_middle.
      destruct (outOfOrder a b).
      * specialize (IH (pre ++ [b]) (a :: t)).
        rewrite length_app in IH. simpl in IH.
        replace (length pre + 1)%nat with (S (length pre)) in IH by lia.
        rewrite <- !app_assoc in IH. simpl in IH. exact IH.
      * specialize (IH (pre ++ [a]) (b :: t)).
        rewrite length_app in IH. simpl in IH.
        replace (length pre + 1)%nat with (S (length pre)) in IH by lia.
        rewrite <- !app_assoc in IH. simpl in IH. exact IH.
Qed.

Lemma bubblePass_sink (s : list A) (i : nat) :
  bubblePass outOfOrder s i = sink outOfOrder (length s - i - 1) s.
Proof. unfold bubblePass. apply (fold_swapAt_sink _ [] s). Qed.

Lemma sink_length (k : nat) (s : list A) : length (sink outOfOrder k s) = length s.
Proof.
  revert s. induction k as [|k IH]; intros s; [destruct s; reflexivity|].
  destruct s as [|a [|b t]]; try reflexivity.
  simpl. destruct (outOfOrder a b); simpl; rewrite IH; reflexivity.
Qed.

Lemma sink_perm (k : nat) (s : list A) : Permutation (sink outOfOrder k s) s.
Proof.
  revert s. induction k as [|k IH]; intros s; [destruct s; reflexivity|].
  destruct s as [|a [|b t]]; try reflexivity.
  simpl. destruct (outOfOrder a b).
  - rewrite IH. apply perm_swap.
  - rewrite IH. reflexivity.
Qed.

(** A pass never exchanges two elements that are in order both ways, so
    it keeps the order within any class of such elements. *)
Lemma sink_filter (P : A -> bool) (k : nat) (s : list A) :
  (forall a b, P a = true -> P b = true -> outOfOrder a b = false) ->
  List.filter P (sink outOfOrder k s) = List.filter P s.
Proof.
  intros HP. revert s. induction k as [|k IH]; intros s; [destruct s; reflexivity|].
  destruct s as [|a [|b t]]; try reflexivity.
  simpl. destruct (outOfOrder a b) eqn:E.
  - simpl. rewrite IH. simpl.
    destruct (P a) eqn:Ea, (P b) eqn:Eb; try reflexivity.
    rewrite (HP a b Ea Eb) in E. discriminate.
  - simpl. rewrite IH. reflexivity.
Qed.

Lemma sink_app (k : nat) (l1 l2 : list A) :
  length l1 = S k -> sink outOfOrder k (l1 ++ l2) = sink outOfOrder k l1 ++ l2.
Proof.
  revert l1. induction k as [|k IH]; intros l1 H.
  - destruct l1 as [|a [|b t]]; try discriminate. simpl. destruct l2; reflexivity.
  - destruct l1 as [|a [|b t]]; try discriminate. simpl in H.
    simpl. destruct (outOfOrder a b).
    + change (a :: t ++ l2) with ((a :: t) ++ l2).
      rewrite (IH (a :: t)) by (simpl; lia). reflexivity.
    + change (b :: t ++ l2) with ((b :: t) ++ l2).
      rewrite (IH (b :: t)) by (simpl; lia). reflexivity.
Qed.

Section Ordered.

Hypothesis outOfOrder_irrefl : forall a, outOfOrder a a = false.
Hypothesis outOfOrder_trans : forall a b c,
  outOfOrder a b = true -> outOfOrder b c = true -> outOfOrder a c = true.
Hypothesis inOrder_trans : forall a b c,
  outOfOrder a b = false -> outOfOrder b c = false -> outOfOrder a c = false.

(** A full pass leaves at the end an element that every element of the
    slice is in order with. *)
Lemma sink_last (k : nat) (s : list A) :
  length s = S k ->
  exists init m, sink outOfOrder k s = init ++ [m] /\ Forall (fun x => outOfOrder x m = false) s.
Proof.
  revert s. induction k as [|k IH]; intros s H.
  - destruct s as [|a [|b t]]; try discriminate.
    exists [], a. split; [reflexivity|]. constructor; auto.
  - destruct s as [|a [|b t]]; try discriminate. simpl in H.
    simpl. destruct (outOfOrder a b) eqn:E.
    + destruct (IH (a :: t)) as (init & m & Hs & Hall); [simpl; lia|].
      exists (b :: init), m. rewrite Hs. split; [reflexivity|].
      inversion Hall as [|? ? Ham Ht]; subst.
      constructor; [exact Ham|]. constructor; [|exact Ht].
      destruct (outOfOrder b m) eqn:Ebm; [|reflexivity].
      rewrite (outOfOrder_trans a b m E Ebm) in Ham. discriminate.
    + destruct (IH (b :: t)) as (init & m & Hs & Hall); [simpl; lia|].
      exists (a :: init), m. rewrite Hs. split; [reflexivity|].
      inversion Hall as [|? ? Hbm Ht]; subst.
      constructor; [|constructor; assumption].
      exact (inOrder_trans a b m E Hbm).
Qed.

Lemma bubblePasses_sorted (k : nat) :
  forall (i : nat) (front back : list A),
    length back = i ->
    length front = S k ->
    StronglySorted (inOrder outOfOrder) back ->
    (forall x y, In x front -> In y back -> outOfOrder x y = false) ->
    StronglySorted (inOrder outOfOrder)
      (fold_left (bubblePass outOfOrder) (seq i k) (front ++ back)).
Proof.
  induction k as [|k IH]; intros i front back Hb Hf Hs Hfb; simpl.
  - destruct front as [|p [|? ?]]; try discriminate. simpl.
    constructor; [exact Hs|].
    apply List.Forall_forall. intros y Hy. apply Hfb; [left; reflexivity|exact Hy].
  - rewrite bubblePass_sink.
    replace (length (front ++ back) - i - 1)%nat with (S k)
      by (rewrite length_app; lia).
    rewrite sink_app by exact Hf.
    destruct (sink_last (S k) front Hf) as (init & m & Hsink & Hall).
    rewrite Hsink. rewrite <- app_assoc. simpl.
    assert (Hperm : Permutation (init ++ [m]) front)
      by (rewrite <- Hsink; apply sink_perm).
    assert (Hm : In m front).
    { eapply Permutation_in; [exact Hperm|]. apply in_or_app. right. left. reflexivity. }
    assert (Hinit : forall x, In x init -> In x front).
    { intros x Hx. eapply Permutation_in; [exact Hperm|]. apply in_or_app. left. exact Hx. }
    apply IH.
    + simpl. lia.
    + apply Permutation_length in Hperm. rewrite length_app in Hperm.
      simpl in Hperm. lia.
    + constructor; [exact Hs|].
      apply List.Forall_forall. intros y Hy. apply Hfb; assumption.
    + intros x y Hx [Hy|Hy].
      * subst y. rewrite List.Forall_forall in Hall. apply Hall. apply Hinit, Hx.
      * apply Hfb; [apply Hinit, Hx|exact Hy].
Qed.

Theorem bubbleSort_sorted (s : list A) :
  StronglySorted (inOrder outOfOrder) (bubbleSort outOfOrder s).
Proof.
  unfold bubbleSort. destruct s as [|a t]; [constructor|].
  rewrite <- (app_nil_r (a :: t)) at 2.
  apply bubblePasses_sorted.
  - reflexivity.
  - simpl. lia.
  - constructor.
  - intros x y _ [].
Qed.

End Ordered.

Lemma bubblePasses_perm (js : list nat) (s : list A) :
  Permutation (fold_left (bubblePass outOfOrder) js s) s.
Proof.
  revert s. induction js as [|j js IH]; intros s; simpl; [reflexivity|].
  rewrite IH, bubblePass_sink. apply sink_perm.
Qed.

Theorem bubbleSort_perm (s : list A) : Permutation (bubbleSort outOfOrder s) s.
Proof. apply bubblePasses_perm. Qed.

Lemma bubblePasses_filter (P : A -> bool) (js : list nat) (s : list A) :
  (forall a b, P a = true -> P b = true -> outOfOrder a b = false) ->
  List.filter P (fold_left (bubblePass outOfOrder) js s) = List.filter P s.
Proof.
  intros HP. revert s. induction js as [|j js IH]; intros s; simpl; [reflexivity|].
  rewrite IH, bubblePass_sink. apply sink_filter, HP.
Qed.

Theorem bubbleSort_stable (P : A -> bool) (s : list A) :
  (forall a b, P a = true -> P b = true -> outOfOrder a b = false) ->
  List.filter P (bubbleSort outOfOrder s) = List.filter P s.
Proof. apply bubblePasses_filter. Qed.

Lemma bubbleSort_length (s : list A) :
  length (bubbleSort outOfOrder s) = length s.
Proof. apply Permutation_length, bubbleSort_perm. Qed.

End BubbleSortTheory.

(** ** GetLatestQSOs *)

Lemma StronglySorted_impl {A : Type} (R R' : A -> A -> Prop) (l : list A) :
  (forall a b, R a b -> R' a b) -> StronglySorted R l -> StronglySorted R' l.
Proof.
  intros HR H. induction H as [|a l Hl IH Ha]; constructor; [exact IH|].
  eapply List.Forall_impl; [|exact Ha]. intros b. apply HR.
Qed.

Lemma StronglySorted_lookup {A : Type} (R : A -> A -> Prop) (l : list A) :
  StronglySorted R l ->
  forall (i j : nat) (a b : A),
    (i < j)%nat -> l !! i = Some a -> l !! j = Some b -> R a b.
Proof.
  intros H. induction H as [|x l Hl IH Hx]; intros i j a b Hij Hi Hj.
  - discriminate.
  - destruct j as [|j]; [lia|]. simpl in Hj.
    destruct i as [|i].
    + simpl in Hi. injection Hi as ->.
      rewrite List.Forall_forall in Hx. apply Hx.
      apply list_elem_of_In. eapply list_elem_of_lookup_2. exact Hj.
    + simpl in Hi. apply (IH i j); [lia|assumption|assumption].
Qed.

Lemma olderThan_irrefl (a : QSO) : olderThan a a = false.
Proof. unfold olderThan, Time.Before. apply Z.ltb_irrefl. Qed.

Lemma olderThan_trans (a b c : QSO) :
  olderThan a b = true -> olderThan b c = true -> olderThan a c = true.
Proof. unfold olderThan, Time.Before. rewrite !Z.ltb_lt. lia. Qed.

Lemma notOlder_trans (a b c : QSO) :
  olderThan a b = false -> olderThan b c = false -> olderThan a c = false.
Proof. unfold olderThan, Time.Before. rewrite !Z.ltb_ge. lia. Qed.

Lemma bubbleSort_stableSort (l : list QSO) :
  spec_stableSort l (bubbleSort olderThan l).
Proof.
  split; [apply bubbleSort_perm|split].
  - unfold spec_newestFirst.
    apply (StronglySorted_impl (inOrder olderThan)).
    + intros a b. unfold inOrder, olderThan, Time.Before. apply Z.ltb_ge.
    + apply bubbleSort_sorted;
        [apply olderThan_irrefl|apply olderThan_trans|apply notOlder_trans].
  - intros t. apply bubbleSort_stable.
    intros a b Ha Hb. apply Z.eqb_eq in Ha, Hb.
    unfold olderThan, Time.Before. apply Z.ltb_ge. lia.
Qed.

(** Two sorted lists that keep the order of [l] within each timestamp are
    the same list. *)
Lemma sorted_sameOrder_unique (s1 s2 : list QSO) :
  spec_newestFirst s1 -> spec_newestFirst s2 ->
  (forall t, List.filter (fun q => Timestamp q =? t) s1
             = List.filter (fun q => Timestamp q =? t) s2) ->
  s1 = s2.
Proof.
  revert s2. induction s1 as [|a s1 IH]; intros s2 H1 H2 Hf.
  - destruct s2 as [|b s2]; [reflexivity|].
    specialize (Hf (Timestamp b)). simpl in Hf. rewrite Z.eqb_refl in Hf. discriminate.
  - destruct s2 as [|b s2].
    + specialize (Hf (Timestamp a)). simpl in Hf. rewrite Z.eqb_refl in Hf. discriminate.
    + inversion H1 as [|? ? H1s H1a]; subst. inversion H2 as [|? ? H2s H2b]; subst.
      assert (Hab : Timestamp a = Timestamp b).
      { assert (Hb1 : In b (a :: s1)).
        { pose proof (Hf (Timestamp b)) as E. simpl in E. rewrite (Z.eqb_refl (Timestamp b)) in E.
          assert (Hin : In b (b :: List.filter (fun q => Timestamp q =? Timestamp b) s2))
            by (left; reflexivity).
          rewrite <- E in Hin.
          destruct (Timestamp a =? Timestamp b).
          - destruct Hin as [->|Hin]; [left; reflexivity|].
            right. apply filter_In in Hin. tauto.
          - right. apply filter_In in Hin. tauto. }
        assert (Ha2 : In a (b :: s2)).
        { pose proof (Hf (Timestamp a)) as E. simpl in E. rewrite (Z.eqb_refl (Timestamp a)) in E.
          assert (Hin : In a (a :: List.filter (fun q => Timestamp q =? Timestamp a) s1))
            by (left; reflexivity).
          rewrite E in Hin.
          destruct (Timestamp b =? Timestamp a).
          - destruct Hin as [->|Hin]; [left; reflexivity|].
            right. apply filter_In in Hin. tauto.
          - right. apply filter_In in Hin. tauto. }
        rewrite List.Forall_forall in H1a, H2b.
        assert (Timestamp b <= Timestamp a)
          by (destruct Hb1 as [->|Hb1]; [lia|apply H1a, Hb1]).
        assert (Timestamp a <= Timestamp b)
          by (destruct Ha2 as [->|Ha2]; [lia|apply H2b, Ha2]).
        lia. }
      assert (a = b).
      { specialize (Hf (Timestamp a)). simpl in Hf.
        rewrite <- Hab, Z.eqb_refl in Hf. congruence. }
      subst b. f_equal. apply IH; [assumption|assumption|].
      intros t. specialize (Hf t). simpl in Hf.
      destruct (Timestamp a =? t); congruence.
Qed.

Lemma stableSort_unique (l s1 s2 : list QSO) :
  spec_stableSort l s1 -> spec_stableSort l s2 -> s1 = s2.
Proof.
  intros (_ & H1 & F1) (_ & H2 & F2).
  apply sorted_sameOrder_unique; [assumption|assumption|].
  intros t. rewrite F1, F2. reflexivity.
Qed.

Lemma newestFirst_zeroAfterLater (s : list QSO) :
  spec_newestFirst s -> zeroAfterLater s.
Proof.
  intros Hs i j a b Hi Hj Ha Hb.
  destruct (Nat.lt_trichotomy i j) as [Hlt|[Heq|Hgt]]; [|subst j|exact Hgt].
  - pose proof (StronglySorted_lookup _ _ Hs i j a b Hlt Hi Hj) as H.
    simpl in H. lia.
  - rewrite Hi in Hj. injection Hj as ->. lia.
Qed.

Lemma GetLatestQSOs_sorted_prefix (p : ADIFParser) (limit : Z) :
  0 <= limit ->
  GetLatestQSOs p limit
  = Returns (take (Z.to_nat limit) (bubbleSort olderThan (QSOs p))).
Proof.
  intros Hl. unfold GetLatestQSOs.
  destruct (Z.eqb_spec (Z.of_nat (length (QSOs p))) 0) as [E|E].
  - destruct (QSOs p); [|discriminate]. cbn. rewrite firstn_nil. reflexivity.
  - destruct (Z.ltb_spec (Z.of_nat (length (bubbleSort olderThan (QSOs p)))) limit) as [H|H].
    + rewrite take_ge by lia. reflexivity.
    + unfold listSliceTo.
      destruct (Z.ltb_spec limit 0); [lia|].
      destruct (Z.ltb_spec (Z.of_nat (length (bubbleSort olderThan (QSOs p)))) limit); [lia|].
      reflexivity.
Qed.

(** C3, as amended: for every collection and every [n >= 0],
    [GetLatestQSOs n] returns the first [min n size] records of the stable
    sort of the whole collection by timestamp, newest first (the one list
    that is a rearrangement of the collection, has its timestamps in
    descending order and keeps the parse order among records with equal
    timestamps, zero ones included); a record with a zero timestamp comes
    after every record whose timestamp is later than the zero time. *)
Theorem GetLatestQSOs_stable_newest_first (p : ADIFParser) (n : Z) :
  0 <= n ->
  exists s,
    spec_stableSort (QSOs p) s
    /\ (forall s', spec_stableSort (QSOs p) s' -> s' = s)
    /\ GetLatestQSOs p n = Returns (take (Z.to_nat n) s)
    /\ length (take (Z.to_nat n) s) = Nat.min (Z.to_nat n) (length (QSOs p))
    /\ zeroAfterLater s.
Proof.
  intros Hn. exists (bubbleSort olderThan (QSOs p)).
  pose proof (bubbleSort_stableSort (QSOs p)) as Hs.
  split; [exact Hs|]. split; [|split; [|split]].
  - intros s' Hs'. exact (stableSort_unique _ _ _ Hs' Hs).
  - apply GetLatestQSOs_sorted_prefix, Hn.
  - rewrite length_take, bubbleSort_length. reflexivity.
  - apply newestFirst_zeroAfterLater. apply Hs.
Qed.

Lemma GetLatestQSOs_stable_newest_first_witness :
  0 <= 1 /\ exists s,
    spec_stableSort (QSOs (fst (parseContent NewADIFParser sample_log))) s
    /\ (forall s', spec_stableSort (QSOs (fst (parseContent NewADIFParser sample_log))) s' -> s' = s)
    /\ GetLatestQSOs (fst (parseContent NewADIFParser sample_log)) 1
       = Returns (take (Z.to_nat 1) s)
    /\ length (take (Z.to_nat 1) s)
       = Nat.min (Z.to_nat 1) (length (QSOs (fst (parseContent NewADIFParser sample_log))))
    /\ zeroAfterLater s.
Proof.
  split; [lia|].
  apply (GetLatestQSOs_stable_newest_first (fst (parseContent NewADIFParser sample_log)) 1).
  lia.
Defined.

(** C3 as stated fails: the log [year0_log] parses to a record without
    timestamp followed by a record dated in year 0, and [GetLatestQSOs 2]
    returns them in that order: the record with the zero timestamp is first,
    not at the end. *)
Lemma GetLatestQSOs_zero_timestamp_first :
  exists a b,
    GetLatestQSOs (fst (parseContent NewADIFParser year0_log)) 2 = Returns [a; b]
    /\ Timestamp a = 0 /\ Timestamp b <> 0
    /\ ~ spec_zeroTimestampsLast [a; b].
Proof.
  eexists. eexists. split; [vm_compute; reflexivity|].
  split; [reflexivity|]. split; [vm_compute; discriminate|].
  intros H. specialize (H 0%nat 1%nat _ _ eq_refl eq_refl eq_refl).
  assert (1 < 0)%nat; [|lia]. apply H. vm_compute. discriminate.
Qed.

(** Five records with distinct timestamps: the three most recent for
    [n = 3], all five for [n = 10]. *)
Example GetLatestQSOs_five_records :
  let at_ (t : Z) := setTimestamp t w1aw_qso in
  let p := mkParser [at_ 30; at_ 10; at_ 50; at_ 20; at_ 40] in
  GetLatestQSOs p 3 = Returns [at_ 50; at_ 40; at_ 30]
  /\ GetLatestQSOs p 10 = Returns [at_ 50; at_ 40; at_ 30; at_ 20; at_ 10].
Proof. split; vm_compute; reflexivity. Qed.

(** C10: for [limit >= 0], [GetLatestQSOs limit] returns, and returns
    exactly [min limit size] records; for a negative [limit] on a non-empty
    collection the final slice expression panics. *)
Theorem GetLatestQSOs_total_iff_nonnegative (p : ADIFParser) (limit : Z) :
  (0 <= limit ->
   exists r, GetLatestQSOs p limit = Returns r
             /\ Z.of_nat (length r) = Z.min limit (Z.of_nat (length (QSOs p))))
  /\ (limit < 0 -> QSOs p <> [] -> GetLatestQSOs p limit = Panics).
Proof.
  split.
  - intros Hl. eexists. split; [apply GetLatestQSOs_sorted_prefix, Hl|].
    rewrite length_take, bubbleSort_length. lia.
  - intros Hl Hne. unfold GetLatestQSOs.
    destruct (Z.eqb_spec (Z.of_nat (length (QSOs p))) 0) as [E|E].
    + destruct (QSOs p); [contradiction|discriminate].
    + destruct (Z.ltb_spec (Z.of_nat (length (bubbleSort olderThan (QSOs p)))) limit); [lia|].
      unfold listSliceTo. destruct (Z.ltb_spec limit 0); [reflexivity|lia].
Qed.

Lemma GetLatestQSOs_total_iff_nonnegative_witness :
  (exists r, GetLatestQSOs (fst (parseContent NewADIFParser sample_log)) 1 = Returns r
             /\ Z.of_nat (length r) = 1)
  /\ GetLatestQSOs (fst (parseContent NewADIFParser sample_log)) (-1) = Panics.
Proof.
  split.
  - destruct (proj1 (GetLatestQSOs_total_iff_nonnegative
                       (fst (parseContent NewADIFParser sample_log)) 1))
      as (r & Hr & Hlen); [lia|].
    exists r. split; [exact Hr|]. rewrite Hlen. vm_compute. reflexivity.
  - apply (proj2 (GetLatestQSOs_total_iff_nonnegative
                    (fst (parseContent NewADIFParser sample_log)) (-1))).
    + lia.
    + vm_compute. discriminate.
Defined.
(** ** SearchQSO *)

Lemma wrap64_in_range (z : Z) : minInt64 <= z <= maxInt64 -> wrap64 z = z.
Proof.
  unfold minInt64, maxInt64, wrap64. intros H.
  rewrite Z.mod_small by lia. lia.
Qed.

Lemma inInt64_spec (z : Z) : inInt64 z = true <-> minInt64 <= z <= maxInt64.
Proof. unfold inInt64. rewrite andb_true_iff, !Z.leb_le. reflexivity. Qed.

(** Within the range of [Duration] the loop computes the distance. *)
Lemma absDuration_Sub (ts t : Z) :
  Z.abs (ts - t) <= maxInt64 ->
  absDuration (Time.Sub ts t) = Z.abs (ts - t).
Proof.
  unfold absDuration, Time.Sub, maxInt64, minInt64. intros H.
  destruct (Z.ltb_spec (ts - t) (- 2 ^ 63)); [lia|].
  destruct (Z.ltb_spec (2 ^ 63 - 1) (ts - t)); [lia|].
  destruct (Z.ltb_spec (ts - t) 0).
  - rewrite wrap64_in_range by (unfold minInt64, maxInt64; lia). lia.
  - lia.
Qed.

Lemma searchStep_inv (c : string) (t : Time.Time) (tol : Z)
    (done : list QSO) (st : SearchState) (q : QSO) :
  (Call q = c -> Z.abs (Timestamp q - t) <= maxInt64) ->
  searchInv c t tol done st ->
  searchInv c t tol (done ++ [q]) (searchStep c t (tol * Time.Minute) st q).
Proof.
  intros Hrange Hinv.
  assert (Hskip : ~ spec_candidate c t tol q -> searchInv c t tol (done ++ [q]) st).
  { intros Hq. destruct Hinv as [[Hf Hnone]|(Hf & Hd & l1 & l2 & Hl & Hc & H1 & H2)].
    - left. split; [exact Hf|]. intros q' Hin.
      apply in_app_or in Hin. destruct Hin as [Hin|[<-|[]]]; auto.
    - right. split; [exact Hf|]. split; [exact Hd|].
      exists l1, (l2 ++ [q]). split; [rewrite Hl, <- app_assoc; reflexivity|].
      split; [exact Hc|]. split; [exact H1|].
      intros q' Hin Hq'. apply in_app_or in Hin.
      destruct Hin as [Hin|[<-|[]]]; [auto|contradiction]. }
  unfold searchStep.
  destruct (String.eqb_spec (Call q) c) as [Hcall|Hcall]; simpl.
  2: { apply Hskip. intros (? & _). contradiction. }
  unfold Time.IsZero. destruct (Z.eqb_spec (Timestamp q) 0) as [Hz|Hz]; simpl.
  { apply Hskip. intros (_ & ? & _). contradiction. }
  rewrite absDuration_Sub by auto. fold (timeGap t q).
  destruct (Z.leb_spec (timeGap t q) (tol * Time.Minute)) as [Hle|Hgt].
  2: { apply Hskip. intros (_ & _ & ?). lia. }
  assert (Hq : spec_candidate c t tol q) by (split; [|split]; assumption).
  destruct Hinv as [[Hf Hnone]|(Hf & Hd & l1 & l2 & Hl & Hc & H1 & H2)].
  - rewrite Hf. simpl. right. simpl. split; [reflexivity|]. split; [reflexivity|].
    exists done, []. split; [reflexivity|]. split; [exact Hq|].
    split; [|intros ? []].
    intros q' Hin Hq'. exfalso. exact (Hnone q' Hin Hq').
  - rewrite Hf. simpl. rewrite Hd.
    destruct (Z.ltb_spec (timeGap t q) (timeGap t (bestMatch st))) as [Hlt|Hge].
    + right. simpl. split; [reflexivity|]. split; [reflexivity|].
      exists done, []. split; [reflexivity|]. split; [exact Hq|].
      split; [|intros ? []].
      intros q' Hin Hq'. rewrite Hl in Hin. apply in_app_or in Hin.
      destruct Hin as [Hin|[<-|Hin]].
      * specialize (H1 q' Hin Hq'). lia.
      * exact Hlt.
      * specialize (H2 q' Hin Hq'). lia.
    + right. split; [exact Hf|]. split; [exact Hd|].
      exists l1, (l2 ++ [q]). split; [rewrite Hl, <- app_assoc; reflexivity|].
      split; [exact Hc|]. split; [exact H1|].
      intros q' Hin Hq'. apply in_app_or in Hin.
      destruct Hin as [Hin|[<-|[]]]; [auto|lia].
Qed.

Lemma searchLoop_inv (c : string) (t : Time.Time) (tol : Z)
    (l done : list QSO) (st : SearchState) :
  (forall q, In q l -> Call q = c -> Z.abs (Timestamp q - t) <= maxInt64) ->
  searchInv c t tol done st ->
  searchInv c t tol (done ++ l) (fold_left (searchStep c t (tol * Time.Minute)) l st).
Proof.
  revert done st. induction l as [|q l IH]; intros done st Hrange Hinv; simpl.
  - rewrite app_nil_r. exact Hinv.
  - replace (done ++ q :: l) with ((done ++ [q]) ++ l)
      by (rewrite <- app_assoc; reflexivity).
    apply IH.
    + intros q' Hin. apply Hrange. right. exact Hin.
    + apply searchStep_inv; [|exact Hinv]. apply Hrange. left. reflexivity.
Qed.

(** The search on times and tolerances that 64-bit durations can hold:
    when the tolerance in nanoseconds fits a [Duration] and no record of
    the call sign is further than a [Duration] from the target, [SearchQSO]
    returns nothing if no record is a candidate, and otherwise the first of
    the candidates closest to the target. *)
Theorem SearchQSO_closest_when_in_range
    (p : ADIFParser) (callSign : string) (t : Time.Time) (tol : Z) :
  inInt64 (tol * Time.Minute) = true ->
  (forall q, In q (QSOs p) ->
             Call q = Strings.ToUpper (Strings.TrimSpace callSign) ->
             Z.abs (Timestamp q - t) <= maxInt64) ->
  (SearchQSO p callSign t tol = []
   /\ forall q, In q (QSOs p) ->
        ~ spec_candidate (Strings.ToUpper (Strings.TrimSpace callSign)) t tol q)
  \/ (exists r, SearchQSO p callSign t tol = [r]
        /\ spec_closest (Strings.ToUpper (Strings.TrimSpace callSign)) t tol (QSOs p) r).
Proof.
  intros Htol Hrange. unfold SearchQSO.
  rewrite wrap64_in_range by (apply inInt64_spec, Htol).
  pose proof (searchLoop_inv (Strings.ToUpper (Strings.TrimSpace callSign)) t tol
                (QSOs p) [] (mkSearchState emptyQSO 0 false) Hrange) as H.
  simpl in H.
  destruct H as [[Hf Hnone]|(Hf & _ & Hc)].
  - left. split; [reflexivity|]. intros q [].
  - left. rewrite Hf. split; [reflexivity|exact Hnone].
  - right. rewrite Hf. eexists. split; [reflexivity|exact Hc].
Qed.

Lemma SearchQSO_closest_when_in_range_witness :
  exists r, SearchQSO (mkParser [w1aw_qso]) " w1aw " (Timestamp w1aw_qso + 10 * Time.Minute) 10 = [r]
            /\ spec_closest "W1AW" (Timestamp w1aw_qso + 10 * Time.Minute) 10 [w1aw_qso] r.
Proof.
  destruct (SearchQSO_closest_when_in_range (mkParser [w1aw_qso]) " w1aw "
              (Timestamp w1aw_qso + 10 * Time.Minute) 10) as [[H _]|H].
  - reflexivity.
  - intros q [<-|[]] _. vm_compute. discriminate.
  - vm_compute in H. discriminate.
  - exact H.
Defined.

(** The inclusive boundary: a gap of exactly ten minutes matches with a
    tolerance of ten, a gap of eleven does not. *)
Example SearchQSO_boundary :
  SearchQSO (mkParser [w1aw_qso]) "W1AW" (Timestamp w1aw_qso + 10 * Time.Minute) 10
  = [w1aw_qso]
  /\ SearchQSO (mkParser [w1aw_qso]) "W1AW" (Timestamp w1aw_qso - 10 * Time.Minute) 10
     = [w1aw_qso]
  /\ SearchQSO (mkParser [w1aw_qso]) "W1AW" (Timestamp w1aw_qso + 11 * Time.Minute) 10
     = [].
Proof. vm_compute. auto. Qed.

(** Records at T and T + 3 min, a query at T + 1 min: the record at T. *)
Example SearchQSO_closer_of_two :
  SearchQSO (mkParser [w1aw_qso; setTimestamp (Timestamp w1aw_qso + 3 * Time.Minute) w1aw_qso])
            "W1AW" (Timestamp w1aw_qso + 1 * Time.Minute) 10
  = [w1aw_qso].
Proof. vm_compute. reflexivity. Qed.

(** C2 fails on the code: with the one record of W1AW dated 2024-01-15
    14:30 UTC, a search for W1AW at 2400-01-01 00:00 UTC with a tolerance
    of 10 minutes returns that record, almost 376 years from the target. The
    difference saturates at the least [Duration], whose 64-bit negation is
    itself, a negative number below every tolerance. *)
Theorem SearchQSO_returns_record_centuries_away :
  SearchQSO (mkParser [w1aw_qso]) "W1AW" year2400 10 = [w1aw_qso]
  /\ Call w1aw_qso = "W1AW"%string
  /\ Timestamp w1aw_qso <> 0
  /\ 10 * Time.Minute < timeGap year2400 w1aw_qso
  /\ ~ spec_candidate "W1AW" year2400 10 w1aw_qso
  /\ absDuration (Time.Sub (Timestamp w1aw_qso) year2400) = minInt64.
Proof.
  split; [vm_compute; reflexivity|].
  split; [vm_compute; reflexivity|].
  split; [vm_compute; discriminate|].
  split; [vm_compute; reflexivity|].
  split; [|vm_compute; reflexivity].
  intros (_ & _ & H). vm_compute in H. apply H. reflexivity.
Qed.

(** ** parseRecord and parseTimestamp *)

(** The fields a record is built from before the timestamp is derived. *)
Lemma setField_Timestamp (f : Field) (v : string) (q : QSO) :
  Timestamp (setField f v q) = Timestamp q.
Proof. destruct q, f; reflexivity. Qed.

Lemma applyMatch_Timestamp (q : QSO) (m : Regexp.Submatch) :
  Timestamp (applyMatch q m) = Timestamp q.
Proof.
  unfold applyMatch. destruct (Strconv.Atoi _); [|reflexivity].
  destruct (_ <? _); [reflexivity|].
  destruct (fieldOfName _ _) as [[f v]|]; [apply setField_Timestamp|reflexivity].
Qed.

Lemma fold_applyMatch_Timestamp (ms : list Regexp.Submatch) (q : QSO) :
  Timestamp (fold_left applyMatch ms q) = Timestamp q.
Proof.
  revert q. induction ms as [|m ms IH]; intros q; simpl; [reflexivity|].
  rewrite IH. apply applyMatch_Timestamp.
Qed.

Lemma setTimestamp_fields (t : Time.Time) (q : QSO) :
  Call (setTimestamp t q) = Call q
  /\ QSODate (setTimestamp t q) = QSODate q
  /\ TimeOn (setTimestamp t q) = TimeOn q
  /\ Timestamp (setTimestamp t q) = t.
Proof. destruct q. simpl. auto. Qed.

Lemma mapFields_Timestamp (record : string) : Timestamp (mapFields record) = 0.
Proof. unfold mapFields. rewrite fold_applyMatch_Timestamp. reflexivity. Qed.

Lemma validateRequired_fst (q : QSO) : fst (validateRequired q) = q.
Proof. unfold validateRequired. destruct (_ || _); reflexivity. Qed.

Lemma deriveTimestamp_fields (q : QSO) :
  Call (deriveTimestamp q) = Call q
  /\ QSODate (deriveTimestamp q) = QSODate q
  /\ TimeOn (deriveTimestamp q) = TimeOn q.
Proof.
  unfold deriveTimestamp. destruct (_ && _); [|auto].
  destruct (parseTimestamp _ _) as [t|]; [|auto].
  destruct (setTimestamp_fields t q) as (? & ? & ? & _). auto.
Qed.

(** The timestamp of the record [parseRecord] returns, from the record's
    own date and time. *)
Lemma parseRecord_Timestamp (record : string) :
  Timestamp (fst (parseRecord record))
  = if negb (Strings.isEmpty (QSODate (fst (parseRecord record))))
       && negb (Strings.isEmpty (TimeOn (fst (parseRecord record))))
    then match parseTimestamp (QSODate (fst (parseRecord record)))
                              (TimeOn (fst (parseRecord record))) with
         | Some t => t
         | None => 0
         end
    else 0.
Proof.
  unfold parseRecord. rewrite validateRequired_fst.
  destruct (deriveTimestamp_fields (mapFields record)) as (_ & Hd & Ht).
  rewrite Hd, Ht. unfold deriveTimestamp.
  pose proof (mapFields_Timestamp record) as Hz.
  destruct (_ && _); [|exact Hz].
  destruct (parseTimestamp _ _) as [t|]; [|exact Hz].
  apply setTimestamp_fields.
Qed.

(** [parseRecord] reports an error exactly for a record without call sign
    or without date. *)
Lemma parseRecord_error_iff (record : string) :
  snd (parseRecord record) = None <-> spec_valid (fst (parseRecord record)) = true.
Proof.
  unfold parseRecord. rewrite validateRequired_fst.
  unfold validateRequired, spec_valid. rewrite <- negb_orb.
  destruct (_ || _); simpl; split; congruence.
Qed.

Lemma isEmpty_spec (s : string) : Strings.isEmpty s = true <-> s = EmptyString.
Proof. unfold Strings.isEmpty. apply String.eqb_eq. Qed.

Lemma isEmpty_false (s : string) : Strings.isEmpty s = false <-> s <> EmptyString.
Proof. unfold Strings.isEmpty. apply String.eqb_neq. Qed.

(** *** [strconv.Atoi] and signed decimal numbers *)

Lemma digits_bound (s : string) (acc v : Z) :
  0 <= acc -> Strconv.digits s acc = Some v ->
  0 <= v < (acc + 1) * 10 ^ Z.of_nat (String.length s).
Proof.
  revert acc v. induction s as [|ch s IH]; intros acc v Hacc H; simpl in H.
  - injection H as <-. simpl. lia.
  - destruct (Strconv.isDigit ch) eqn:Ed; [|discriminate].
    assert (Hd : 0 <= Strconv.digitVal ch <= 9).
    { unfold Strconv.isDigit in Ed. unfold Strconv.digitVal.
      apply andb_true_iff in Ed. destruct Ed as [E1 E2].
      apply N.leb_le in E1, E2. lia. }
    apply IH in H; [|lia].
    change (String.length (String ch s)) with (S (String.length s)).
    rewrite Nat2Z.inj_succ, Z.pow_succ_r by lia.
    assert (0 < 10 ^ Z.of_nat (String.length s)) by (apply Z.pow_pos_nonneg; lia).
    nia.
Qed.

Lemma unsigned_allDigits (s : string) (n : Z) :
  Strconv.unsigned s = Some n ->
  negb (Strings.isEmpty s) && allDigits s = true.
Proof.
  destruct s as [|ch s]; [discriminate|].
  unfold Strconv.unsigned, allDigits. intros ->. reflexivity.
Qed.

Lemma allDigits_unsigned (s : string) :
  negb (Strings.isEmpty s) && allDigits s = true ->
  exists n, Strconv.unsigned s = Some n
            /\ 0 <= n < 10 ^ Z.of_nat (String.length s).
Proof.
  destruct s as [|ch s]; [discriminate|].
  unfold Strconv.unsigned, allDigits. simpl negb. rewrite andb_true_l.
  destruct (Strconv.digits (String ch s) 0) as [n|] eqn:E; [|discriminate].
  intros _. exists n. split; [reflexivity|].
  apply digits_bound in E; lia.
Qed.

(** [Atoi] accepts signed decimal numbers only. *)
Lemma Atoi_signedDecimal (s : string) (n : Z) :
  Strconv.Atoi s = Some n -> signedDecimal s = true.
Proof.
  unfold Strconv.Atoi, signedDecimal. destruct s as [|ch s]; [discriminate|].
  destruct (Ascii.eqb ch "-"); simpl orb; cbv iota.
  { destruct (Strconv.unsigned s) as [m|] eqn:E; [|discriminate].
    intros _. eapply unsigned_allDigits, E. }
  destruct (Ascii.eqb ch "+"); cbv iota.
  { destruct (Strconv.unsigned s) as [m|] eqn:E; [|discriminate].
    intros _. eapply unsigned_allDigits, E. }
  destruct (Strconv.unsigned (String ch s)) as [m|] eqn:E; [|discriminate].
  intros _. apply unsigned_allDigits in E. exact E.
Qed.

(** [Atoi] accepts every signed decimal number of at most 18 bytes. *)
Lemma signedDecimal_Atoi (s : string) :
  signedDecimal s = true -> (String.length s <= 18)%nat ->
  exists n, Strconv.Atoi s = Some n.
Proof.
  unfold Strconv.Atoi, signedDecimal. destruct s as [|ch s]; [discriminate|].
  intros H Hlen. simpl in Hlen.
  assert (Hpow : forall k, (k <= 18)%nat -> 10 ^ Z.of_nat k <= 10 ^ 18).
  { intros k Hk. apply Z.pow_le_mono_r; lia. }
  assert (Hin : forall m, - 10 ^ 18 < m < 10 ^ 18 -> inInt64 m = true).
  { intros m Hm. apply andb_true_iff. unfold minInt64, maxInt64.
    rewrite !Z.leb_le. lia. }
  destruct (Ascii.eqb ch "-"); simpl orb in H; cbv iota in H |- *.
  { apply allDigits_unsigned in H. destruct H as (m & -> & Hm). simpl.
    specialize (Hpow (String.length s)).
    rewrite Hin by lia. eauto. }
  destruct (Ascii.eqb ch "+"); cbv iota in H |- *.
  { apply allDigits_unsigned in H. destruct H as (m & -> & Hm).
    specialize (Hpow (String.length s)).
    rewrite Hin by lia. eauto. }
  assert (H' : negb (Strings.isEmpty (String ch s)) && allDigits (String ch s) = true)
    by exact H.
  apply allDigits_unsigned in H'. destruct H' as (m & -> & Hm).
  specialize (Hpow (String.length (String ch s))). simpl String.length in *.
  rewrite Hin by lia. eauto.
Qed.

Lemma substring_length_le (n m : nat) (s : string) :
  (String.length (String.substring n m s) <= m)%nat.
Proof.
  revert n m. induction s as [|ch s IH]; intros n m.
  - destruct n, m; simpl; lia.
  - destruct n as [|n]; [destruct m as [|m]|]; simpl.
    + lia.
    + specialize (IH 0%nat m). lia.
    + apply IH.
Qed.

Lemma slice_length_le (s : string) (lo hi : Z) :
  (String.length (Strings.slice s lo hi) <= Z.to_nat (hi - lo))%nat.
Proof. apply substring_length_le. Qed.

(** [parseTimestamp] has no error exactly on the strings of 8 and 6 bytes
    whose six parts are signed decimal numbers. *)
Lemma parseTimestamp_accepted (date timeOn : string) :
  acceptedDateTime date timeOn = true <->
  exists t, parseTimestamp date timeOn = Some t.
Proof.
  unfold acceptedDateTime, parseTimestamp. split.
  - intros H. repeat (apply andb_true_iff in H; destruct H as [H ?]).
    rewrite H. match goal with E : (Strings.len timeOn =? 6) = true |- _ => rewrite E end.
    simpl.
    repeat match goal with
    | E : signedDecimal (Strings.slice ?s ?a ?b) = true |- _ =>
        let n := fresh "n" in
        destruct (signedDecimal_Atoi _ E) as [n ->];
        [pose proof (slice_length_le s a b) as Hl; simpl in Hl; lia|]; clear E
    end.
    eauto.
  - intros [t H].
    destruct (Strings.len date =? 8); [|discriminate].
    destruct (Strings.len timeOn =? 6); [|discriminate].
    simpl in H |- *.
    repeat match type of H with
    | match Strconv.Atoi ?x with _ => _ end = _ =>
        let E := fresh "E" in
        destruct (Strconv.Atoi x) eqn:E; [apply Atoi_signedDecimal in E; rewrite E|discriminate]
    end.
    reflexivity.
Qed.

Lemma parseTimestamp_Date (date timeOn : string) (t : Time.Time) :
  parseTimestamp date timeOn = Some t ->
  exists year month day hour minute second,
    Strconv.Atoi (Strings.slice date 0 4) = Some year
    /\ Strconv.Atoi (Strings.slice date 4 6) = Some month
    /\ Strconv.Atoi (Strings.slice date 6 8) = Some day
    /\ Strconv.Atoi (Strings.slice timeOn 0 2) = Some hour
    /\ Strconv.Atoi (Strings.slice timeOn 2 4) = Some minute
    /\ Strconv.Atoi (Strings.slice timeOn 4 6) = Some second
    /\ t = Time.Date year month day hour minute second.
Proof.
  unfold parseTimestamp. intros H.
  destruct (_ || _); [discriminate|].
  repeat match type of H with
  | match Strconv.Atoi ?x with _ => _ end = _ =>
      destruct (Strconv.Atoi x); [|discriminate]
  end.
  injection H as <-. do 6 eexists. repeat split; reflexivity.
Qed.

Lemma acceptedDateTime_nonempty (date timeOn : string) :
  acceptedDateTime date timeOn = true ->
  negb (Strings.isEmpty date) && negb (Strings.isEmpty timeOn) = true.
Proof.
  unfold acceptedDateTime. intros H.
  repeat (apply andb_true_iff in H; destruct H as [H ?]).
  destruct date; [discriminate|]. destruct timeOn; [discriminate|]. reflexivity.
Qed.

(** C5, as amended: the timestamp of a parsed record is non-zero only when
    [qsoDate] has 8 bytes and [timeOn] 6 and each of the six parts (year,
    month, day, hour, minute, second) is a signed decimal number, the
    strings [strconv.Atoi] accepts; the timestamp is then [time.Date] of
    the six numbers in UTC, which normalises values outside their usual
    ranges; every other combination leaves the timestamp zero; and the
    record is valid exactly if [call] and [qsoDate] are non-empty, whatever
    the timestamp. *)
Theorem parseRecord_timestamp_when_accepted
    (record : string) (q : QSO) (e : option error) :
  Strings.isASCII record = true ->
  parseRecord record = (q, e) ->
  (Timestamp q <> 0 -> acceptedDateTime (QSODate q) (TimeOn q) = true)
  /\ (acceptedDateTime (QSODate q) (TimeOn q) = true ->
      exists year month day hour minute second,
        Strconv.Atoi (Strings.slice (QSODate q) 0 4) = Some year
        /\ Strconv.Atoi (Strings.slice (QSODate q) 4 6) = Some month
        /\ Strconv.Atoi (Strings.slice (QSODate q) 6 8) = Some day
        /\ Strconv.Atoi (Strings.slice (TimeOn q) 0 2) = Some hour
        /\ Strconv.Atoi (Strings.slice (TimeOn q) 2 4) = Some minute
        /\ Strconv.Atoi (Strings.slice (TimeOn q) 4 6) = Some second
        /\ Timestamp q = Time.Date year month day hour minute second)
  /\ (acceptedDateTime (QSODate q) (TimeOn q) = false -> Timestamp q = 0)
  /\ (e = None <-> Call q <> EmptyString /\ QSODate q <> EmptyString).
Proof.
  intros _ Hq.
  pose proof (parseRecord_Timestamp record) as Hts.
  pose proof (parseRecord_error_iff record) as Herr.
  rewrite Hq in Hts, Herr. simpl in Hts, Herr.
  assert (Hnz : Timestamp q <> 0 -> acceptedDateTime (QSODate q) (TimeOn q) = true).
  { intros Hne. destruct (_ && _); [|contradiction].
    destruct (parseTimestamp (QSODate q) (TimeOn q)) as [t|] eqn:E; [|contradiction].
    apply parseTimestamp_accepted. eauto. }
  split; [exact Hnz|]. split; [|split].
  - intros Hacc. rewrite (acceptedDateTime_nonempty _ _ Hacc) in Hts.
    apply parseTimestamp_accepted in Hacc. destruct Hacc as [t Ht].
    rewrite Ht in Hts. rewrite Hts. apply parseTimestamp_Date, Ht.
  - intros Hacc. destruct (Z.eq_dec (Timestamp q) 0) as [E|E]; [exact E|].
    rewrite (Hnz E) in Hacc. discriminate.
  - rewrite Herr. unfold spec_valid. rewrite andb_true_iff, !negb_true_iff.
    rewrite !isEmpty_false. reflexivity.
Qed.

Lemma parseRecord_timestamp_when_accepted_witness :
  Strings.isASCII month13_record = true
  /\ Timestamp (fst (parseRecord month13_record)) = Time.Date 2024 13 1 12 0 0
  /\ snd (parseRecord month13_record) = None.
Proof.
  split; [reflexivity|].
  destruct (parseRecord_timestamp_when_accepted month13_record
              (fst (parseRecord month13_record)) (snd (parseRecord month13_record))
              eq_refl) as (_ & Hdate & _ & Hvalid).
  { destruct (parseRecord month13_record). reflexivity. }
  split.
  - destruct Hdate as (y & mo & d & h & mi & sec & Hy & Hmo & Hd & Hh & Hmi & Hs & Ht).
    + vm_compute. reflexivity.
    + vm_compute in Hy, Hmo, Hd, Hh, Hmi, Hs.
      injection Hy as <-. injection Hmo as <-. injection Hd as <-.
      injection Hh as <-. injection Hmi as <-. injection Hs as <-. exact Ht.
  - apply Hvalid. split; vm_compute; discriminate.
Defined.

(** C5 as stated fails: the record [month13_record], whose [qsoDate] has
    the month 13, gets a timestamp that is not zero: [time.Date] makes it
    January 1 of 2025, 12:00:00 UTC. *)
Lemma parseRecord_month13_timestamp_nonzero :
  QSODate (fst (parseRecord month13_record)) = "20241301"%string
  /\ TimeOn (fst (parseRecord month13_record)) = "120000"%string
  /\ spec_wellFormed "20241301" "120000" = false
  /\ Timestamp (fst (parseRecord month13_record)) <> 0
  /\ Timestamp (fst (parseRecord month13_record)) = Time.Date 2025 1 1 12 0 0
  /\ snd (parseRecord month13_record) = None.
Proof.
  repeat split; try (vm_compute; reflexivity). vm_compute. discriminate.
Qed.

(** ** Formatting *)

(** C7: a parsed record with [qsoDate] 20240115 and [timeOn] 143000 has
    the timestamp 2024-01-15T14:30:00 UTC (1705329000 seconds after the
    Unix epoch), and [FormatDate] and [FormatTime] give 2024-01-15 and
    14:30. *)
Theorem timestamp_and_format_round_trip
    (record : string) (q : QSO) (e : option error) :
  Strings.isASCII record = true ->
  parseRecord record = (q, e) ->
  QSODate q = "20240115"%string ->
  TimeOn q = "143000"%string ->
  Timestamp q = Time.Date 2024 1 15 14 30 0
  /\ Time.Unix (Timestamp q) = 1705329000
  /\ Timestamp q mod Time.Second = 0
  /\ FormatDate q = "2024-01-15"%string
  /\ FormatTime q = "14:30"%string.
Proof.
  intros _ Hq Hd Ht.
  pose proof (parseRecord_Timestamp record) as Hts.
  rewrite Hq in Hts. simpl in Hts. rewrite Hd, Ht in Hts.
  unfold FormatDate, FormatTime. rewrite Hd, Ht, Hts.
  vm_compute. repeat split; reflexivity.
Qed.

Lemma timestamp_and_format_round_trip_witness :
  Strings.isASCII w1aw_record = true
  /\ Time.Unix (Timestamp w1aw_qso) = 1705329000
  /\ FormatDate w1aw_qso = "2024-01-15"%string
  /\ FormatTime w1aw_qso = "14:30"%string.
Proof.
  split; [reflexivity|].
  destruct (timestamp_and_format_round_trip w1aw_record w1aw_qso
              (snd (parseRecord w1aw_record)) eq_refl)
    as (_ & Hu & _ & Hd & Ht).
  - unfold w1aw_qso. destruct (parseRecord w1aw_record). reflexivity.
  - vm_compute. reflexivity.
  - vm_compute. reflexivity.
  - auto.
Defined.

(** ** Slices are in range *)

Lemma mapBytes_length (f : ascii -> ascii) (s : string) :
  String.length (Strings.mapBytes f s) = String.length s.
Proof. induction s as [|c s IH]; simpl; [reflexivity|]. rewrite IH. reflexivity. Qed.

Lemma prefix_length (a s : string) :
  String.prefix a s = true -> (String.length a <= String.length s)%nat.
Proof.
  revert s. induction a as [|c a IH]; intros s H; simpl; [lia|].
  destruct s as [|d s]; [discriminate|]. simpl in H.
  destruct (Ascii.ascii_dec c d); [|discriminate].
  specialize (IH s H). simpl. lia.
Qed.

Lemma Index_range (s substr : string) :
  Strings.Index s substr <> -1 ->
  0 <= Strings.Index s substr
  /\ Strings.Index s substr + Strings.len substr <= Strings.len s.
Proof.
  unfold Strings.len. induction s as [|c s IH]; cbn [Strings.Index].
  - destruct (String.prefix substr EmptyString) eqn:E;
      [|intros H; exfalso; apply H; reflexivity].
    intros _. apply prefix_length in E. simpl in E. lia.
  - destruct (String.prefix substr (String c s)) eqn:E.
    + intros _. apply prefix_length in E. lia.
    + cbn [String.length]. destruct (Z.eqb_spec (Strings.Index s substr) (-1)) as [E1|E1];
        [intros H; exfalso; apply H; reflexivity|].
      intros _. specialize (IH E1). lia.
Qed.

(** The slice of [stripHeader] is within the text. *)
Lemma stripHeader_in_range (content : string) :
  Strings.Index (Strings.ToUpper content) "<EOH>" <> -1 ->
  0 <= Strings.Index (Strings.ToUpper content) "<EOH>" + 5 <= Strings.len content.
Proof.
  intros H. apply Index_range in H. unfold Strings.len in *.
  unfold Strings.ToUpper in H at 3. rewrite mapBytes_length in H.
  simpl String.length in H. lia.
Qed.

(** ** The log parser *)

Lemma parseChunk_spec (p : ADIFParser) (record : string) :
  parseChunk p record
  = mkParser (QSOs p
              ++ List.filter spec_valid
                   (map spec_mappedRecord
                      (List.filter (fun r => negb (Strings.isEmpty r))
                         [Strings.TrimSpace record]))).
Proof.
  unfold parseChunk. simpl.
  destruct (Strings.isEmpty (Strings.TrimSpace record)); simpl.
  - rewrite app_nil_r. destruct p; reflexivity.
  - unfold spec_mappedRecord.
    pose proof (parseRecord_error_iff (Strings.TrimSpace record)) as H.
    destruct (parseRecord (Strings.TrimSpace record)) as [q [err|]]; simpl in *.
    + destruct (spec_valid q); [destruct H as [_ H]; discriminate (H eq_refl)|].
      rewrite app_nil_r. destruct p; reflexivity.
    + rewrite (proj1 H eq_refl). reflexivity.
Qed.

Lemma fold_parseChunk_spec (records : list string) (p : ADIFParser) :
  fold_left parseChunk records p
  = mkParser (QSOs p
              ++ List.filter spec_valid
                   (map spec_mappedRecord
                      (List.filter (fun r => negb (Strings.isEmpty r))
                         (map Strings.TrimSpace records)))).
Proof.
  revert p. induction records as [|r records IH]; intros p.
  - simpl. rewrite app_nil_r. destruct p; reflexivity.
  - cbn [fold_left]. rewrite IH, parseChunk_spec. cbn [QSOs].
    rewrite <- app_assoc. f_equal. f_equal.
    change (map Strings.TrimSpace (r :: records))
      with ([Strings.TrimSpace r] ++ map Strings.TrimSpace records).
    rewrite List.filter_app, List.map_app, List.filter_app. reflexivity.
Qed.

(** [parseContent] appends the valid records of the text, in the order of
    the text, and has no error. *)
Lemma parseContent_spec (p : ADIFParser) (content : string) :
  parseContent p content = (mkParser (QSOs p ++ spec_validRecords content), None).
Proof.
  unfold parseContent, spec_validRecords, spec_recordChunks.
  rewrite fold_parseChunk_spec. reflexivity.
Qed.

Lemma trimRight_head (c : ascii) (s : string) :
  Strings.isSpace c = false -> Strings.trimRight (String c s) <> EmptyString.
Proof.
  intros H. simpl. destruct (Strings.trimRight s); [rewrite H|]; discriminate.
Qed.

Lemma TrimSpace_empty_allSpace (s : string) :
  Strings.TrimSpace s = EmptyString -> allSpace s = true.
Proof.
  unfold Strings.TrimSpace. induction s as [|c s IH]; [reflexivity|].
  simpl. destruct (Strings.isSpace c) eqn:E.
  - simpl. exact IH.
  - intros H. exfalso. revert H. change (Strings.trimRight (String c s) <> EmptyString).
    apply trimRight_head, E.
Qed.

Lemma isSpace_not_lt (c : ascii) :
  Strings.isSpace c = true -> Ascii.eqb (Strings.toUpperByte c) "<" = false.
Proof.
  destruct c as [[] [] [] [] [] [] [] []]; intros H; try discriminate H; reflexivity.
Qed.

Lemma allSpace_SplitEOR (s : string) :
  allSpace s = true -> Regexp.SplitEOR s = [s].
Proof.
  unfold Regexp.SplitEOR. induction s as [|c s IH]; intros H; [reflexivity|].
  simpl in H. apply andb_true_iff in H. destruct H as [Hc Hs].
  cbn [Regexp.splitEORFrom].
  assert (E : Regexp.matchEOR (String c s) = false).
  { unfold Regexp.matchEOR. cbn [String.substring Strings.ToUpper Strings.mapBytes].
    cbn [String.eqb]. rewrite (isSpace_not_lt c Hc). reflexivity. }
  rewrite E, (IH Hs). reflexivity.
Qed.

Lemma headerOnly_no_records (content : string) :
  spec_headerOnly content -> spec_validRecords content = [].
Proof.
  unfold spec_headerOnly, spec_validRecords, spec_recordChunks. intros H.
  rewrite (allSpace_SplitEOR _ (TrimSpace_empty_allSpace _ H)).
  simpl. rewrite H. reflexivity.
Qed.

Lemma spec_valid_iff (q : QSO) :
  spec_valid q = true <-> Call q <> EmptyString /\ QSODate q <> EmptyString.
Proof.
  unfold spec_valid. rewrite andb_true_iff, !negb_true_iff, !isEmpty_false.
  reflexivity.
Qed.

(** On ASCII text the parse has no error and
    returns exactly the records whose [call] and [qsoDate] are non-empty
    after field mapping, in the order of the text; no returned record lacks
    one of the two; an empty or header-only document yields the empty
    collection. *)
Theorem parse_returns_exactly_valid_records (content : string) :
  Strings.isASCII content = true ->
  parseContent NewADIFParser content = (mkParser (spec_validRecords content), None)
  /\ ParseFile NewADIFParser (ReadsAll content)
     = (mkParser (spec_validRecords content), None)
  /\ Forall (fun q => Call q <> EmptyString /\ QSODate q <> EmptyString)
            (spec_validRecords content)
  /\ (content = EmptyString \/ spec_headerOnly content ->
      spec_validRecords content = []).
Proof.
  intros _. split; [apply parseContent_spec|]. split; [apply parseContent_spec|].
  split.
  - apply List.Forall_forall. intros q Hq.
    apply filter_In in Hq. apply spec_valid_iff, Hq.
  - intros [->|H]; [reflexivity|apply headerOnly_no_records, H].
Qed.

Lemma parse_returns_exactly_valid_records_witness :
  Strings.isASCII sample_log = true
  /\ map Call (QSOs (fst (parseContent NewADIFParser sample_log)))
     = ["W1AW"; "M0XYZ"]%string
  /\ snd (parseContent NewADIFParser sample_log) = None.
Proof.
  split; [reflexivity|].
  destruct (parse_returns_exactly_valid_records sample_log eq_refl) as (H & _).
  rewrite H. split; [vm_compute|]; reflexivity.
Defined.

Example parse_header_only :
  spec_headerOnly header_only_log
  /\ parseContent NewADIFParser header_only_log = (mkParser [], None).
Proof. split; vm_compute; reflexivity. Qed.



(** C8 as stated fails: [unreadable_log] gives no valid record, and
    [ParseFile] returns the empty collection without an error (in the
    embedding of the header strip with its bounds check as well, whatever
    the case tables). *)
Lemma ParseFile_unreadable_content_no_error :
  spec_validRecords unreadable_log = []
  /\ ParseFile NewADIFParser (ReadsAll unreadable_log) = (mkParser [], None)
  /\ (forall upperRune : Z -> Z,
        AnyText.ParseFile upperRune NewADIFParser (ReadsAll unreadable_log)
        = Returns (mkParser [], None)).
Proof.
  split; [vm_compute; reflexivity|]. split; [vm_compute; reflexivity|].
  intros upperRune. vm_compute. reflexivity.
Qed.

(** ** GetPaperQSLHallOfFame *)

(** *** The order of call signs *)

Lemma gt_lt (a b : string) : Strings.gt a b = true <-> String_as_OT.lt b a.
Proof.
  unfold Strings.gt.
  destruct (String_as_OT.compare_spec a b) as [E|E|E].
  - change (a = b) in E. subst b. split; [discriminate|]. intros H.
    exfalso. exact (StrictOrder_Irreflexive a H).
  - split; [discriminate|]. intros H. exfalso.
    exact (StrictOrder_Irreflexive a (StrictOrder_Transitive a b a E H)).
  - tauto.
Qed.

Lemma not_gt_le (a b : string) :
  Strings.gt a b = false <-> a = b \/ String_as_OT.lt a b.
Proof.
  unfold Strings.gt.
  destruct (String_as_OT.compare_spec a b) as [E|E|E].
  - change (a = b) in E. tauto.
  - tauto.
  - split; [discriminate|]. intros [->|H]; exfalso.
    + exact (StrictOrder_Irreflexive b E).
    + exact (StrictOrder_Irreflexive a (StrictOrder_Transitive a b a H E)).
Qed.

Lemma callAfter_irrefl (a : QSO) : callAfter a a = false.
Proof. unfold callAfter. apply not_gt_le. left. reflexivity. Qed.

Lemma callAfter_trans (a b c : QSO) :
  callAfter a b = true -> callAfter b c = true -> callAfter a c = true.
Proof.
  unfold callAfter. rewrite !gt_lt. intros H1 H2.
  exact (StrictOrder_Transitive _ _ _ H2 H1).
Qed.

Lemma notCallAfter_trans (a b c : QSO) :
  callAfter a b = false -> callAfter b c = false -> callAfter a c = false.
Proof.
  unfold callAfter. rewrite !not_gt_le.
  intros [E1|H1] [E2|H2].
  - left. congruence.
  - right. rewrite E1. exact H2.
  - right. rewrite <- E2. exact H1.
  - right. exact (StrictOrder_Transitive _ _ _ H1 H2).
Qed.

Lemma sorted_distinct_strict (r : list QSO) :
  StronglySorted (inOrder callAfter) r -> List.NoDup (map Call r) ->
  StronglySorted callBefore r.
Proof.
  induction 1 as [|a r Hr IH Ha]; intros Hnd; [constructor|].
  simpl in Hnd. apply List.NoDup_cons_iff in Hnd. destruct Hnd as [Hna Hnd].
  constructor; [apply IH, Hnd|].
  rewrite List.Forall_forall in Ha |- *. intros b Hb.
  specialize (Ha b Hb). unfold inOrder, callAfter in Ha.
  apply not_gt_le in Ha. destruct Ha as [E|Hlt]; [|exact Hlt].
  exfalso. apply Hna. rewrite E. apply in_map, Hb.
Qed.

(** *** The map [seen] *)

Lemma hallStep_lookup (seen : gmap string QSO) (q : QSO) (c : string) :
  hallStep seen q !! c
  = if confirms c q then
      match seen !! c with
      | None => Some q
      | Some existing =>
          if negb (Strings.isEmpty (Name q)) && Strings.isEmpty (Name existing)
          then Some q else Some existing
      end
    else seen !! c.
Proof.
  unfold hallStep, confirms.
  destruct (String.eqb (QslRcvd q) QslYes); [|reflexivity]. simpl.
  destruct (String.eqb_spec (Call q) c) as [<-|Hne].
  - destruct (seen !! Call q) as [e|] eqn:E.
    + destruct (_ && _); [apply lookup_insert_eq|exact E].
    + apply lookup_insert_eq.
  - destruct (seen !! Call q) as [e|].
    + destruct (_ && _); [apply lookup_insert_ne, Hne|reflexivity].
    + apply lookup_insert_ne, Hne.
Qed.

Lemma find_app {A : Type} (f : A -> bool) (l1 l2 : list A) :
  List.find f (l1 ++ l2)
  = match List.find f l1 with Some x => Some x | None => List.find f l2 end.
Proof.
  induction l1 as [|a l1 IH]; [reflexivity|].
  simpl. destruct (f a); [reflexivity|exact IH].
Qed.

Lemma retained_snoc (c : string) (l : list QSO) (q : QSO) :
  spec_retained c (l ++ [q])
  = if confirms c q then
      match spec_retained c l with
      | None => Some q
      | Some existing =>
          if negb (Strings.isEmpty (Name q)) && Strings.isEmpty (Name existing)
          then Some q else Some existing
      end
    else spec_retained c l.
Proof.
  unfold spec_retained, spec_confirmed. rewrite List.filter_app. simpl.
  destruct (confirms c q); [|rewrite app_nil_r; reflexivity].
  set (cands := List.filter _ l).
  unfold spec_preferred. rewrite find_app.
  destruct (List.find _ cands) as [e|] eqn:E.
  - apply find_some in E. destruct E as [_ E]. apply negb_true_iff in E.
    rewrite E, andb_false_r. reflexivity.
  - destruct cands as [|e cands]; simpl.
    + destruct (negb (Strings.isEmpty (Name q))); reflexivity.
    + simpl in E. destruct (negb (Strings.isEmpty (Name e))) eqn:Ee; [discriminate|].
      apply negb_false_iff in Ee. rewrite Ee, andb_true_r.
      destruct (negb (Strings.isEmpty (Name q))); reflexivity.
Qed.

(** After the first loop the map holds, for each call sign, the record the
    specification retains. *)
Lemma seen_retained (l : list QSO) (c : string) :
  fold_left hallStep l (∅ : gmap string QSO) !! c = spec_retained c l.
Proof.
  induction l as [|q l IH] using rev_ind; [reflexivity|].
  rewrite fold_left_app. simpl. rewrite hallStep_lookup, IH, retained_snoc.
  reflexivity.
Qed.

Lemma retained_props (c : string) (l : list QSO) (q : QSO) :
  spec_retained c l = Some q ->
  In q l /\ QslRcvd q = QslYes /\ Call q = c.
Proof.
  unfold spec_retained, spec_preferred. intros H.
  assert (Hin : In q (spec_confirmed c l)).
  { destruct (List.find _ _) as [e|] eqn:E.
    - injection H as <-. apply find_some in E. apply E.
    - destruct (spec_confirmed c l); [discriminate|]. injection H as <-. left. reflexivity. }
  unfold spec_confirmed in Hin. apply filter_In in Hin. destruct Hin as [Hin Hc].
  unfold confirms in Hc. apply andb_true_iff in Hc. destruct Hc as [Hy Hc].
  apply String.eqb_eq in Hy, Hc. auto.
Qed.

Lemma retained_exists (c : string) (l : list QSO) :
  (exists q, In q l /\ QslRcvd q = QslYes /\ Call q = c)
  <-> exists q, spec_retained c l = Some q.
Proof.
  split.
  - intros (q & Hin & Hy & Hc).
    assert (Hq : In q (spec_confirmed c l)).
    { apply filter_In. split; [exact Hin|].
      unfold confirms. apply andb_true_iff. split; apply String.eqb_eq; assumption. }
    unfold spec_retained, spec_preferred.
    destruct (List.find _ _); [eauto|].
    destruct (spec_confirmed c l); [contradiction|]. simpl. eauto.
  - intros [q H]. exists q. apply retained_props, H.
Qed.

(** *** The result *)

Lemma filter_perm {A : Type} (f : A -> bool) (l1 l2 : list A) :
  Permutation l1 l2 -> Permutation (List.filter f l1) (List.filter f l2).
Proof.
  induction 1 as [|x l1 l2 H IH|x y l|l1 l2 l3 H1 IH1 H2 IH2]; simpl.
  - constructor.
  - destruct (f x); [constructor|]; exact IH.
  - destruct (f x), (f y); try reflexivity. apply perm_swap.
  - etransitivity; eassumption.
Qed.

(** The records of one call sign among the values of entries with distinct
    keys, each value filed under its own call sign. *)
Lemma filter_call_entries (entries : list (string * QSO)) (c : string) :
  List.NoDup (map fst entries) ->
  (forall k v, In (k, v) entries -> Call v = k) ->
  (forall q, In (c, q) entries ->
     List.filter (fun v => String.eqb (Call v) c) (map snd entries) = [q])
  /\ ((forall q, ~ In (c, q) entries) ->
     List.filter (fun v => String.eqb (Call v) c) (map snd entries) = []).
Proof.
  induction entries as [|[k v] entries IH]; intros Hnd Hcall.
  - split; [intros q []|reflexivity].
  - simpl in Hnd. apply List.NoDup_cons_iff in Hnd. destruct Hnd as [Hk Hnd].
    assert (Hcall' : forall k v, In (k, v) entries -> Call v = k)
      by (intros; apply Hcall; right; assumption).
    destruct (IH Hnd Hcall') as [IH1 IH2].
    assert (Hv : Call v = k) by (apply Hcall; left; reflexivity).
    simpl. rewrite Hv. destruct (String.eqb_spec k c) as [->|Hne].
    + assert (Hnone : forall q, ~ In (c, q) entries).
      { intros q Hin. apply Hk. apply (in_map fst) in Hin. exact Hin. }
      rewrite (IH2 Hnone). split; [|intros H; exfalso; apply (H v); left; reflexivity].
      intros q [E|Hin]; [congruence|]. exfalso. exact (Hnone q Hin).
    + split.
      * intros q [E|Hin]; [congruence|]. apply IH1, Hin.
      * intros H. apply IH2. intros q Hin. apply (H q). right. exact Hin.
Qed.

Lemma map_Call_entries (entries : list (string * QSO)) :
  (forall k v, In (k, v) entries -> Call v = k) ->
  map Call (map snd entries) = map fst entries.
Proof.
  induction entries as [|[k v] entries IH]; intros H; [reflexivity|].
  simpl. rewrite (H k v) by (left; reflexivity).
  f_equal. apply IH. intros; apply H; right; assumption.
Qed.

(** C4: the hall of fame holds, for each call sign with a record whose
    [qslRcvd] is Y, exactly one such record and no other record: the first
    of them that has a name, or the first of them when none has a name; it
    is in strictly ascending order of call sign, in whatever order Go
    ranges over the map. *)
Theorem hallOfFame_one_record_per_confirmed_call
    (rangeOrder : list (string * QSO) -> list (string * QSO)) (p : ADIFParser) :
  (forall l, Permutation (rangeOrder l) l) ->
  StronglySorted callBefore (GetPaperQSLHallOfFame rangeOrder p)
  /\ (forall c,
        List.filter (fun q => String.eqb (Call q) c)
                    (GetPaperQSLHallOfFame rangeOrder p)
        = match spec_retained c (QSOs p) with Some q => [q] | None => [] end)
  /\ (forall c,
        (exists q, In q (QSOs p) /\ QslRcvd q = QslYes /\ Call q = c)
        <-> exists q, spec_retained c (QSOs p) = Some q)
  /\ Forall (fun q => QslRcvd q = QslYes /\ In q (QSOs p))
            (GetPaperQSLHallOfFame rangeOrder p).
Proof.
  intros Hperm. unfold GetPaperQSLHallOfFame.
  set (seen := fold_left hallStep (QSOs p) ∅).
  set (entries := rangeOrder (map_to_list seen)).
  assert (Hin : forall k v, In (k, v) entries <-> spec_retained k (QSOs p) = Some v).
  { intros k v. unfold entries. rewrite <- seen_retained. fold seen.
    rewrite <- elem_of_map_to_list, <- list_elem_of_In.
    split; intros H; [rewrite <- (Hperm _)|rewrite (Hperm _)]; exact H. }
  assert (Hnd : List.NoDup (map fst entries)).
  { apply NoDup_ListNoDup. unfold entries.
    rewrite (Hperm _). apply NoDup_fst_map_to_list. }
  assert (Hcall : forall k v, In (k, v) entries -> Call v = k).
  { intros k v H. apply Hin in H. apply retained_props in H. apply H. }
  pose proof (bubbleSort_perm callAfter (map snd entries)) as Hsort.
  split; [|split; [|split]].
  - apply sorted_distinct_strict.
    + apply bubbleSort_sorted;
        [apply callAfter_irrefl|apply callAfter_trans|apply notCallAfter_trans].
    + eapply Permutation_NoDup; [symmetry; apply Permutation_map, Hsort|].
      rewrite map_Call_entries by exact Hcall. exact Hnd.
  - intros c.
    pose proof (filter_perm (fun q => String.eqb (Call q) c) _ _ Hsort) as Hf.
    destruct (filter_call_entries entries c Hnd Hcall) as [H1 H2].
    destruct (spec_retained c (QSOs p)) as [q|] eqn:E.
    + rewrite (H1 q) in Hf by (apply Hin, E).
      apply Permutation_sym, Permutation_length_1_inv in Hf. exact Hf.
    + rewrite H2 in Hf.
      * apply Permutation_sym, Permutation_nil in Hf. exact Hf.
      * intros q Hq. apply Hin in Hq. congruence.
  - intros c. apply retained_exists.
  - apply List.Forall_forall. intros q Hq.
    eapply Permutation_in in Hq; [|exact Hsort].
    apply in_map_iff in Hq. destruct Hq as ([k v] & <- & Hkv).
    apply Hin, retained_props in Hkv. simpl. tauto.
Qed.

Lemma hallOfFame_one_record_per_confirmed_call_witness :
  (forall l : list (string * QSO), Permutation (rev l) l)
  /\ List.filter (fun q => String.eqb (Call q) "M0XYZ")
       (GetPaperQSLHallOfFame (@rev _) (mkParser [m0xyz_unnamed; m0xyz_alice]))
     = [m0xyz_alice].
Proof.
  assert (H : forall l : list (string * QSO), Permutation (rev l) l)
    by (intros l; symmetry; apply Permutation_rev).
  split; [exact H|].
  destruct (hallOfFame_one_record_per_confirmed_call (@rev _)
              (mkParser [m0xyz_unnamed; m0xyz_alice]) H) as (_ & Hf & _).
  rewrite (Hf "M0XYZ"%string). vm_compute. reflexivity.
Defined.

(** Two confirmed records of M0XYZ, one without name and one of Alice:
    the hall of fame is the record of Alice. *)
Example hallOfFame_prefers_name :
  GetPaperQSLHallOfFame (fun l => l) (mkParser [m0xyz_unnamed; m0xyz_alice])
  = [m0xyz_alice]
  /\ GetPaperQSLHallOfFame (fun l => l) (mkParser [m0xyz_alice; m0xyz_unnamed])
     = [m0xyz_alice].
Proof. split; vm_compute; reflexivity. Qed.

(** * Theorems on the rest of the query engine *)

(** ** GetQSOsByCallsign and SearchQSO *)

Lemma byCallsign_filter (c : string) (l acc : list QSO) :
  fold_left (fun results qso =>
               if String.eqb (Call qso) c then results ++ [qso] else results) l acc
  = acc ++ List.filter (fun q => String.eqb (Call q) c) l.
Proof.
  revert acc. induction l as [|q l IH]; intros acc; simpl.
  - rewrite app_nil_r. reflexivity.
  - rewrite IH. destruct (String.eqb (Call q) c); [|reflexivity].
    rewrite <- app_assoc. reflexivity.
Qed.

Lemma GetQSOsByCallsign_filter (p : ADIFParser) (callSign : string) :
  GetQSOsByCallsign p callSign
  = List.filter (fun q => String.eqb (Call q)
                            (Strings.ToUpper (Strings.TrimSpace callSign))) (QSOs p).
Proof. unfold GetQSOsByCallsign. apply byCallsign_filter. Qed.

(** Whatever the tolerance and the times, the best match is a record of
    the call sign with a timestamp. *)
Lemma searchLoop_bestMatch (c : string) (t : Time.Time) (tolerance : Time.Duration)
    (l done : list QSO) (st : SearchState) :
  (found st = true ->
   In (bestMatch st) done /\ Call (bestMatch st) = c /\ Timestamp (bestMatch st) <> 0) ->
  found (fold_left (searchStep c t tolerance) l st) = true ->
  In (bestMatch (fold_left (searchStep c t tolerance) l st)) (done ++ l)
  /\ Call (bestMatch (fold_left (searchStep c t tolerance) l st)) = c
  /\ Timestamp (bestMatch (fold_left (searchStep c t tolerance) l st)) <> 0.
Proof.
  revert done st. induction l as [|q l IH]; intros done st Hst; simpl.
  - rewrite app_nil_r. exact Hst.
  - replace (done ++ q :: l) with ((done ++ [q]) ++ l)
      by (rewrite <- app_assoc; reflexivity).
    apply IH. unfold searchStep.
    assert (Hkeep : found st = true ->
                    In (bestMatch st) (done ++ [q]) /\ Call (bestMatch st) = c
                    /\ Timestamp (bestMatch st) <> 0).
    { intros H. destruct (Hst H) as (? & ? & ?). split; [|auto].
      apply in_or_app. left. assumption. }
    destruct (String.eqb_spec (Call q) c) as [Hc|Hc]; simpl; [|exact Hkeep].
    unfold Time.IsZero. destruct (Z.eqb_spec (Timestamp q) 0) as [Hz|Hz]; simpl;
      [exact Hkeep|].
    destruct (_ <=? _); [|exact Hkeep].
    destruct (negb (found st) || _); [|exact Hkeep].
    simpl. intros _. split; [|auto]. apply in_or_app. right. left. reflexivity.
Qed.

(** X1: on an ASCII call sign [SearchQSO] returns nothing or one record,
    and whatever the time and the tolerance are (also where the 64-bit
    time difference saturates or wraps) that record is one of those
    [GetQSOsByCallsign] returns for the same call sign: its call is the
    trimmed upper case of the call sign, and its timestamp is not zero. *)
Theorem SearchQSO_result_among_byCallsign
    (p : ADIFParser) (callSign : string) (t : Time.Time) (tol : Z) :
  Strings.isASCII callSign = true ->
  SearchQSO p callSign t tol = []
  \/ exists r, SearchQSO p callSign t tol = [r]
               /\ In r (GetQSOsByCallsign p callSign)
               /\ Call r = Strings.ToUpper (Strings.TrimSpace callSign)
               /\ Timestamp r <> 0.
Proof.
  intros _. unfold SearchQSO.
  pose proof (searchLoop_bestMatch (Strings.ToUpper (Strings.TrimSpace callSign)) t
                (wrap64 (tol * Time.Minute)) (QSOs p) []
                (mkSearchState emptyQSO 0 false)) as H.
  destruct (found (fold_left _ _ _)) eqn:E; [|left; reflexivity].
  right. eexists. split; [reflexivity|].
  destruct H as (Hin & Hc & Hz); [discriminate|reflexivity|].
  split; [|auto]. rewrite GetQSOsByCallsign_filter. apply filter_In.
  split; [exact Hin|]. apply String.eqb_eq, Hc.
Qed.

Lemma SearchQSO_result_among_byCallsign_witness :
  Strings.isASCII " w1aw " = true
  /\ exists r, SearchQSO (mkParser [w1aw_qso]) " w1aw " year2400 10 = [r]
               /\ In r (GetQSOsByCallsign (mkParser [w1aw_qso]) " w1aw ")
               /\ Timestamp r <> 0.
Proof.
  split; [reflexivity|].
  destruct (SearchQSO_result_among_byCallsign (mkParser [w1aw_qso]) " w1aw " year2400 10
              eq_refl) as [E|(r & E & Hin & _ & Hz)].
  - vm_compute in E. discriminate E.
  - exists r. split; [exact E|]. split; [exact Hin|exact Hz].
Defined.

(** ** GetUniqueCountriesCount *)

Lemma countries_dom (l : list QSO) (m : gmap string bool) :
  dom (fold_left countryStep l m)
  = dom m ∪ list_to_set (List.filter (fun c => negb (Strings.isEmpty c)) (map Country l)).
Proof.
  revert m. induction l as [|q l IH]; intros m; simpl.
  - symmetry. apply union_empty_r_L.
  - rewrite IH. unfold countryStep.
    destruct (negb (Strings.isEmpty (Country q))); simpl.
    + rewrite dom_insert_L, (comm_L (∪) {[Country q]} (dom m)), <- (assoc_L (∪)).
      reflexivity.
    + reflexivity.
Qed.

Lemma remove_dups_length_le (l : list string) :
  (length (remove_dups l) <= length l)%nat.
Proof.
  induction l as [|x l IH]; simpl; [lia|].
  destruct (decide_rel elem_of x l); simpl; lia.
Qed.

Lemma remove_dups_nil_inv (l : list string) : remove_dups l = [] -> l = [].
Proof.
  destruct l as [|x l]; [reflexivity|]. intros H.
  assert (Hx : x ∈ remove_dups (x :: l)) by (apply elem_of_remove_dups; left).
  rewrite H in Hx. inversion Hx.
Qed.

Lemma list_to_set_remove_dups_gset (l : list string) :
  (list_to_set (remove_dups l) : gset string) = list_to_set l.
Proof.
  apply set_eq. intros x. rewrite !elem_of_list_to_set. apply elem_of_remove_dups.
Qed.

(** X2: [GetUniqueCountriesCount] is the number of distinct non-empty
    country names of the collection; it is at most [GetTotalQSOCount], and
    it is 0 exactly when no record has a country. *)
Theorem GetUniqueCountriesCount_distinct_nonempty (p : ADIFParser) :
  GetUniqueCountriesCount p = Z.of_nat (length (spec_countries (QSOs p)))
  /\ 0 <= GetUniqueCountriesCount p <= GetTotalQSOCount p
  /\ (GetUniqueCountriesCount p = 0 <->
      forall q, In q (QSOs p) -> Country q = EmptyString).
Proof.
  unfold GetUniqueCountriesCount, GetTotalQSOCount, spec_countries.
  set (cs := List.filter (fun c => negb (Strings.isEmpty c)) (map Country (QSOs p))).
  assert (Hsize : size (fold_left countryStep (QSOs p) (∅ : gmap string bool))
                  = length (remove_dups cs)).
  { rewrite <- size_dom, countries_dom, dom_empty_L, union_empty_l_L.
    fold cs. rewrite <- (list_to_set_remove_dups_gset cs).
    apply size_list_to_set, NoDup_remove_dups. }
  rewrite Hsize. split; [reflexivity|]. split; [split; [lia|]|].
  - pose proof (remove_dups_length_le cs) as H1.
    pose proof (List.filter_length_le (fun c => negb (Strings.isEmpty c))
                  (map Country (QSOs p))) as H2.
    fold cs in H2. rewrite length_map in H2. lia.
  - split.
    + intros H q Hq.
      assert (Hcs : cs = []).
      { apply remove_dups_nil_inv. destruct (remove_dups cs); [reflexivity|].
        simpl in H. lia. }
      destruct (Strings.isEmpty (Country q)) eqn:E; [apply isEmpty_spec, E|].
      assert (Hin : In (Country q) cs).
      { apply filter_In. split; [apply in_map, Hq|rewrite E; reflexivity]. }
      rewrite Hcs in Hin. destruct Hin.
    + intros H.
      assert (Hcs : cs = []).
      { destruct cs as [|c cs'] eqn:E; [reflexivity|]. exfalso.
        assert (Hin : In c cs) by (rewrite E; left; reflexivity).
        apply filter_In in Hin. destruct Hin as [Hin Hne].
        apply in_map_iff in Hin. destruct Hin as (q & <- & Hq).
        rewrite (H q Hq) in Hne. discriminate. }
      rewrite Hcs. reflexivity.
Qed.

(** ** GetLatestQSO *)

Lemma latestStep_inv (done : list QSO) (latest : option QSO) (q : QSO) :
  latestInv done latest -> latestInv (done ++ [q]) (latestStep latest q).
Proof.
  unfold latestStep, Time.IsZero, Time.After.
  destruct (Z.eqb_spec (Timestamp q) 0) as [Hz|Hz].
  - destruct latest as [r|]; simpl.
    + intros (l1 & l2 & Hl & Hr & H1 & H2).
      exists l1, (l2 ++ [q]). split; [rewrite Hl, <- app_assoc; reflexivity|].
      split; [exact Hr|]. split; [exact H1|].
      intros x Hx Hnz. apply in_app_or in Hx.
      destruct Hx as [Hx|[<-|[]]]; [auto|contradiction].
    + intros H x Hx. apply in_app_or in Hx. destruct Hx as [Hx|[<-|[]]]; auto.
  - destruct latest as [r|]; simpl.
    + intros (l1 & l2 & Hl & Hr & H1 & H2).
      destruct (Z.ltb_spec (Timestamp r) (Timestamp q)) as [Hlt|Hge]; simpl.
      * exists done, []. split; [reflexivity|]. split; [exact Hz|].
        split; [|intros ? []].
        intros x Hx Hnz. rewrite Hl in Hx. apply in_app_or in Hx.
        destruct Hx as [Hx|[<-|Hx]].
        -- specialize (H1 x Hx Hnz). lia.
        -- exact Hlt.
        -- specialize (H2 x Hx Hnz). lia.
      * exists l1, (l2 ++ [q]). split; [rewrite Hl, <- app_assoc; reflexivity|].
        split; [exact Hr|]. split; [exact H1|].
        intros x Hx Hnz. apply in_app_or in Hx.
        destruct Hx as [Hx|[<-|[]]]; [auto|lia].
    + intros H. exists done, []. split; [reflexivity|]. split; [exact Hz|].
      split; [|intros ? []].
      intros x Hx Hnz. specialize (H x Hx). contradiction.
Qed.

Lemma latestLoop_inv (l done : list QSO) (latest : option QSO) :
  latestInv done latest -> latestInv (done ++ l) (fold_left latestStep l latest).
Proof.
  revert done latest. induction l as [|q l IH]; intros done latest H; simpl.
  - rewrite app_nil_r. exact H.
  - replace (done ++ q :: l) with ((done ++ [q]) ++ l)
      by (rewrite <- app_assoc; reflexivity).
    apply IH, latestStep_inv, H.
Qed.

Lemma GetLatestQSO_inv (p : ADIFParser) : latestInv (QSOs p) (GetLatestQSO p).
Proof.
  unfold GetLatestQSO.
  destruct (Z.eqb_spec (Z.of_nat (length (QSOs p))) 0) as [E|E].
  - destruct (QSOs p); [|discriminate]. intros q [].
  - apply (latestLoop_inv (QSOs p) [] None). intros q [].
Qed.

(** X3: [GetLatestQSO] returns nil exactly when every record has a zero
    timestamp (an empty collection included); otherwise it returns the
    first record, in collection order, among those with the latest
    timestamp that is not zero, and no other. *)
Theorem GetLatestQSO_first_latest_nonzero (p : ADIFParser) :
  (GetLatestQSO p = None <-> forall q, In q (QSOs p) -> Timestamp q = 0)
  /\ (forall r, GetLatestQSO p = Some r <-> spec_latest (QSOs p) r).
Proof.
  pose proof (GetLatestQSO_inv p) as H.
  assert (Huniq : forall r r', spec_latest (QSOs p) r -> spec_latest (QSOs p) r' -> r = r').
  { intros r r' (l1 & l2 & Hl & Hr & H1 & H2) (l1' & l2' & Hl' & Hr' & H1' & H2').
    rewrite Hl in Hl'. clear Hl.
    revert l1' Hl' H1'. induction l1 as [|x l1 IH]; intros l1' Hl' H1'.
    - destruct l1' as [|x' l1']; simpl in Hl'; injection Hl' as E1 E2; [congruence|].
      subst x'. exfalso.
      assert (Timestamp r < Timestamp r') by (apply H1'; [left; reflexivity|exact Hr]).
      assert (Timestamp r' <= Timestamp r).
      { apply H2; [|exact Hr']. rewrite E2. apply in_or_app. right. left. reflexivity. }
      lia.
    - destruct l1' as [|x' l1']; simpl in Hl'; injection Hl' as E1 E2.
      + subst x. exfalso.
        assert (Timestamp r' < Timestamp r) by (apply H1; [left; reflexivity|exact Hr']).
        assert (Timestamp r <= Timestamp r').
        { apply H2'; [|exact Hr]. rewrite <- E2. apply in_or_app. right. left. reflexivity. }
        lia.
      + apply (IH (fun q Hq => H1 q (or_intror Hq)) l1' E2).
        intros q Hq. apply H1'. right. exact Hq. }
  split.
  - split.
    + intros E. rewrite E in H. exact H.
    + intros Hz. destruct (GetLatestQSO p) as [r|]; [|reflexivity].
      destruct H as (l1 & l2 & Hl & Hr & _). exfalso. apply Hr, Hz.
      rewrite Hl. apply in_or_app. right. left. reflexivity.
  - intros r. split.
    + intros E. rewrite E in H. exact H.
    + intros Hr. destruct (GetLatestQSO p) as [r'|].
      * f_equal. apply Huniq; assumption.
      * destruct Hr as (l1 & l2 & Hl & Hr & _). exfalso. apply Hr, H.
        rewrite Hl. apply in_or_app. right. left. reflexivity.
Qed.

(** The stable sort begins with the first record of the latest timestamp. *)
Lemma stableSort_head (l s : list QSO) (r : QSO) :
  spec_stableSort l s -> spec_latest l r -> 0 < Timestamp r ->
  exists s', s = r :: s'.
Proof.
  intros (Hperm & Hsorted & Hsame) (l1 & l2 & Hl & Hr & H1 & H2) Hpos.
  assert (Hle : forall x, In x l -> Timestamp x <= Timestamp r).
  { intros x Hx. rewrite Hl in Hx. apply in_app_or in Hx.
    destruct (Z.eq_dec (Timestamp x) 0) as [E|E]; [lia|].
    destruct Hx as [Hx|[<-|Hx]]; [specialize (H1 x Hx E)|..|specialize (H2 x Hx E)]; lia. }
  destruct s as [|h s'].
  { exfalso. apply Permutation_nil in Hperm. rewrite Hl in Hperm.
    destruct l1; discriminate. }
  exists s'. f_equal.
  assert (Hh : Timestamp h = Timestamp r).
  { assert (Timestamp h <= Timestamp r)
      by (apply Hle; eapply Permutation_in; [exact Hperm|left; reflexivity]).
    assert (Hrs : In r (h :: s')).
    { eapply Permutation_in; [symmetry; exact Hperm|].
      rewrite Hl. apply in_or_app. right. left. reflexivity. }
    inversion Hsorted as [|? ? _ Hall]; subst.
    rewrite List.Forall_forall in Hall.
    destruct Hrs as [->|Hrs]; [reflexivity|]. specialize (Hall r Hrs). lia. }
  specialize (Hsame (Timestamp r)). simpl in Hsame. rewrite Hh, Z.eqb_refl in Hsame.
  rewrite Hl, List.filter_app in Hsame. simpl in Hsame. rewrite Z.eqb_refl in Hsame.
  assert (Hnone : List.filter (fun q => Timestamp q =? Timestamp r) l1 = []).
  { clear Hsame Hl. induction l1 as [|x l1 IH]; [reflexivity|]. simpl.
    destruct (Z.eqb_spec (Timestamp x) (Timestamp r)) as [E|E].
    - exfalso. assert (Timestamp x < Timestamp r); [|lia].
      apply H1; [left; reflexivity|lia].
    - apply IH. intros q Hq. apply H1. right. exact Hq. }
  rewrite Hnone in Hsame. simpl in Hsame. congruence.
Qed.

(** X4: the two ways to the most recent record agree: when
    [GetLatestQSO] returns a record with a timestamp after the zero time,
    [GetLatestQSOs(1)] returns that record. *)
Theorem GetLatestQSO_heads_GetLatestQSOs (p : ADIFParser) (r : QSO) :
  GetLatestQSO p = Some r -> 0 < Timestamp r ->
  GetLatestQSOs p 1 = Returns [r].
Proof.
  intros Hr Hpos.
  rewrite GetLatestQSOs_sorted_prefix by lia.
  destruct (stableSort_head (QSOs p) (bubbleSort olderThan (QSOs p)) r)
    as [s' Hs]; [apply bubbleSort_stableSort| |exact Hpos|].
  - pose proof (GetLatestQSO_inv p) as H. rewrite Hr in H. exact H.
  - rewrite Hs. reflexivity.
Qed.

Lemma GetLatestQSO_heads_GetLatestQSOs_witness :
  exists r, GetLatestQSO (fst (parseContent NewADIFParser sample_log)) = Some r
            /\ 0 < Timestamp r
            /\ GetLatestQSOs (fst (parseContent NewADIFParser sample_log)) 1 = Returns [r].
Proof.
  eexists. split; [vm_compute; reflexivity|]. split; [reflexivity|].
  apply GetLatestQSO_heads_GetLatestQSOs; [vm_compute; reflexivity|reflexivity].
Defined.

(** ** Normalisation of strings *)

Lemma isSpace_toUpperByte (c : ascii) :
  Strings.isSpace (Strings.toUpperByte c) = Strings.isSpace c.
Proof. destruct c as [[] [] [] [] [] [] [] []]; reflexivity. Qed.

Lemma toUpperByte_idem (c : ascii) :
  Strings.toUpperByte (Strings.toUpperByte c) = Strings.toUpperByte c.
Proof. destruct c as [[] [] [] [] [] [] [] []]; reflexivity. Qed.

Lemma toUpperByte_toLowerByte (c : ascii) :
  Strings.toUpperByte (Strings.toLowerByte c) = Strings.toUpperByte c.
Proof. destruct c as [[] [] [] [] [] [] [] []]; reflexivity. Qed.

Lemma ToUpper_idem (s : string) :
  Strings.ToUpper (Strings.ToUpper s) = Strings.ToUpper s.
Proof.
  unfold Strings.ToUpper. induction s as [|c s IH]; simpl; [reflexivity|].
  rewrite toUpperByte_idem, IH. reflexivity.
Qed.

Lemma ToUpper_ToLower (s : string) :
  Strings.ToUpper (Strings.ToLower s) = Strings.ToUpper s.
Proof.
  unfold Strings.ToUpper, Strings.ToLower. induction s as [|c s IH]; simpl; [reflexivity|].
  rewrite toUpperByte_toLowerByte, IH. reflexivity.
Qed.

Lemma trimLeft_ToUpper (s : string) :
  Strings.trimLeft (Strings.ToUpper s) = Strings.ToUpper (Strings.trimLeft s).
Proof.
  unfold Strings.ToUpper. induction s as [|c s IH]; simpl; [reflexivity|].
  rewrite isSpace_toUpperByte. destruct (Strings.isSpace c); [exact IH|reflexivity].
Qed.

Lemma trimRight_ToUpper (s : string) :
  Strings.trimRight (Strings.ToUpper s) = Strings.ToUpper (Strings.trimRight s).
Proof.
  unfold Strings.ToUpper. induction s as [|c s IH]; simpl; [reflexivity|].
  rewrite IH, isSpace_toUpperByte.
  destruct (Strings.trimRight s); simpl; [destruct (Strings.isSpace c)|]; reflexivity.
Qed.

Lemma TrimSpace_ToUpper (s : string) :
  Strings.TrimSpace (Strings.ToUpper s) = Strings.ToUpper (Strings.TrimSpace s).
Proof. unfold Strings.TrimSpace. rewrite trimLeft_ToUpper, trimRight_ToUpper. reflexivity. Qed.

Lemma trimRight_idem (s : string) :
  Strings.trimRight (Strings.trimRight s) = Strings.trimRight s.
Proof.
  induction s as [|c s IH]; [reflexivity|]. simpl.
  destruct (Strings.trimRight s) as [|d r] eqn:E.
  - destruct (Strings.isSpace c) eqn:Ec; simpl; [reflexivity|]. rewrite Ec. reflexivity.
  - cbn [Strings.trimRight]. fold Strings.trimRight.
    change (match Strings.trimRight (String d r) with
            | EmptyString => if Strings.isSpace c then EmptyString else String c EmptyString
            | String a s0 => String c (String a s0)
            end = String c (String d r)).
    rewrite IH. reflexivity.
Qed.

Lemma trimLeft_startsClean (s : string) : startsClean (Strings.trimLeft s).
Proof.
  induction s as [|c s IH]; simpl; [exact I|].
  destruct (Strings.isSpace c) eqn:E; [exact IH|exact E].
Qed.

Lemma trimRight_startsClean (s : string) :
  startsClean s -> startsClean (Strings.trimRight s).
Proof.
  destruct s as [|c s]; simpl; [auto|]. intros H.
  destruct (Strings.trimRight s); [rewrite H|]; exact H.
Qed.

Lemma trimLeft_clean (s : string) : startsClean s -> Strings.trimLeft s = s.
Proof. destruct s as [|c s]; simpl; [auto|]. intros ->. reflexivity. Qed.

Lemma TrimSpace_idem (s : string) :
  Strings.TrimSpace (Strings.TrimSpace s) = Strings.TrimSpace s.
Proof.
  unfold Strings.TrimSpace.
  rewrite (trimLeft_clean (Strings.trimRight (Strings.trimLeft s)))
    by apply trimRight_startsClean, trimLeft_startsClean.
  apply trimRight_idem.
Qed.

(** The call sign as the query functions normalise it. *)
Lemma normalise_idem (c : string) :
  Strings.ToUpper (Strings.TrimSpace (Strings.ToUpper (Strings.TrimSpace c)))
  = Strings.ToUpper (Strings.TrimSpace c).
Proof. rewrite TrimSpace_ToUpper, TrimSpace_idem, ToUpper_idem. reflexivity. Qed.

(** ** Parsed records are normalised *)

Lemma getField_setField_eq (f : Field) (v : string) (q : QSO) :
  getField f (setField f v q) = v.
Proof. destruct q, f; reflexivity. Qed.

Lemma getField_setField_ne (f f' : Field) (v : string) (q : QSO) :
  f <> f' -> getField f' (setField f v q) = getField f' q.
Proof. destruct q, f, f'; intros H; try reflexivity; contradiction H; reflexivity. Qed.

Lemma getField_setTimestamp (f : Field) (t : Time.Time) (q : QSO) :
  getField f (setTimestamp t q) = getField f q.
Proof. destruct q, f; reflexivity. Qed.

Lemma Field_eq_dec (f f' : Field) : f = f' \/ f <> f'.
Proof. destruct f, f'; (left; reflexivity) || (right; discriminate). Qed.

(** The value the [switch] assigns: the trimmed value, in upper case for
    the call sign. *)
Lemma fieldOfName_value (name value : string) (f : Field) (v : string) :
  fieldOfName name value = Some (f, v) ->
  (f = FCall /\ v = Strings.ToUpper value) \/ (f <> FCall /\ v = value).
Proof.
  unfold fieldOfName.
  repeat match goal with
  | |- (if ?b then _ else _) = _ -> _ => destruct b
  end; intros H; try discriminate; injection H as <- <-;
    (left; split; reflexivity) || (right; split; [discriminate|reflexivity]).
Qed.

Lemma applyMatch_normalised (q : QSO) (m : Regexp.Submatch) :
  normalised q -> normalised (applyMatch q m).
Proof.
  intros [Htrim Hup]. unfold applyMatch.
  destruct (Strconv.Atoi _) as [n|]; [|split; assumption].
  destruct (_ <? _); [split; assumption|].
  destruct (fieldOfName _ _) as [[f v]|] eqn:E; [|split; assumption].
  apply fieldOfName_value in E. split.
  - intros f'. destruct (Field_eq_dec f f') as [<-|Hne].
    + rewrite getField_setField_eq.
      destruct E as [[_ ->]|[_ ->]].
      * rewrite TrimSpace_ToUpper, TrimSpace_idem. reflexivity.
      * apply TrimSpace_idem.
    + rewrite getField_setField_ne by exact Hne. apply Htrim.
  - change (Call (setField f v q)) with (getField FCall (setField f v q)).
    destruct E as [[-> ->]|[Hne ->]].
    + rewrite getField_setField_eq. apply ToUpper_idem.
    + rewrite getField_setField_ne by exact Hne. exact Hup.
Qed.

Lemma mapFields_normalised (record : string) : normalised (mapFields record).
Proof.
  unfold mapFields.
  assert (H : normalised emptyQSO) by (split; [intros []|]; reflexivity).
  revert H. generalize emptyQSO.
  induction (Regexp.FindAllFields record) as [|m ms IH]; intros q H; simpl; [exact H|].
  apply IH, applyMatch_normalised, H.
Qed.

Lemma parseRecord_normalised (record : string) :
  normalised (fst (parseRecord record)).
Proof.
  unfold parseRecord. rewrite validateRequired_fst.
  pose proof (mapFields_normalised record) as [Htrim Hup].
  unfold deriveTimestamp. destruct (_ && _); [|split; assumption].
  destruct (parseTimestamp _ _) as [t|]; [|split; assumption].
  split.
  - intros f. rewrite getField_setTimestamp. apply Htrim.
  - change (Call (setTimestamp t (mapFields record)))
      with (getField FCall (setTimestamp t (mapFields record))).
    rewrite getField_setTimestamp. exact Hup.
Qed.



(** * Theorems on text that is not ASCII *)

(** ** On ASCII text the two embeddings agree *)

Lemma AnyText_ToUpper_ascii (upperRune : Z -> Z) (s : string) :
  Strings.isASCII s = true -> AnyText.ToUpper upperRune s = Strings.ToUpper s.
Proof. intros H. unfold AnyText.ToUpper. rewrite H. reflexivity. Qed.

Lemma AnyText_stripHeader_ascii (upperRune : Z -> Z) (content : string) :
  Strings.isASCII content = true ->
  AnyText.stripHeader upperRune content = Returns (stripHeader content).
Proof.
  intros H. unfold AnyText.stripHeader, stripHeader.
  rewrite (AnyText_ToUpper_ascii upperRune content H).
  destruct (Z.eqb_spec (Strings.Index (Strings.ToUpper content) "<EOH>") (-1)) as [E|E];
    simpl; [reflexivity|].
  pose proof (stripHeader_in_range content E) as Hr.
  unfold AnyText.sliceFrom.
  destruct (Z.ltb_spec (Strings.Index (Strings.ToUpper content) "<EOH>" + 5) 0); [lia|].
  destruct (Z.ltb_spec (Strings.len content)
              (Strings.Index (Strings.ToUpper content) "<EOH>" + 5)); [lia|].
  reflexivity.
Qed.

Lemma AnyText_parseContent_ascii (upperRune : Z -> Z) (p : ADIFParser) (content : string) :
  Strings.isASCII content = true ->
  AnyText.parseContent upperRune p content = Returns (parseContent p content).
Proof.
  intros H. unfold AnyText.parseContent.
  rewrite (AnyText_stripHeader_ascii upperRune content H). reflexivity.
Qed.

(** Readable content never gives an error: [parseContent] returns nil or
    does not return. *)
Lemma AnyText_parseContent_no_error (upperRune : Z -> Z) (p p' : ADIFParser)
    (content : string) (e : option error) :
  AnyText.parseContent upperRune p content = Returns (p', e) -> e = None.
Proof.
  unfold AnyText.parseContent.
  destruct (AnyText.stripHeader upperRune content); [|discriminate].
  intros H. injection H as _ <-. reflexivity.
Qed.

(** ** The header strip on text that is not ASCII *)

(** C1 fails on the code: [latin1_header_log] has a header in ISO 8859-1
    and one valid record, and the parse returns no record (the same log
    with an ASCII header gives the record); [latin1_header_only], a
    header in ISO 8859-1 and no record, makes the parse panic instead of
    returning the empty collection. [strings.ToUpper] writes each invalid
    byte as the three bytes of U+FFFD, so the index of the marker in the
    upper-case copy is too large for the text itself. *)
Theorem parseContent_latin1_header_loses_record_or_panics (upperRune : Z -> Z) :
  AnyText.parseContent upperRune NewADIFParser latin1_header_log
  = Returns (mkParser [], None)
  /\ AnyText.parseContent upperRune NewADIFParser ascii_header_log
     = Returns (mkParser [w1aw_qso], None)
  /\ AnyText.stripHeader upperRune latin1_header_log
     = Returns "call:4>W1AW <qso_date:8>20240115 <time_on:6>143000 <eor>"%string
  /\ Strings.len latin1_header_only = 13
  /\ Strings.Index (AnyText.ToUpper upperRune latin1_header_only) "<EOH>" = 11
  /\ AnyText.parseContent upperRune NewADIFParser latin1_header_only = Panics
  /\ AnyText.ParseFile upperRune NewADIFParser (ReadsAll latin1_header_only) = Panics.
Proof. repeat split; vm_compute; reflexivity. Qed.

(** The same on valid UTF-8: the upper case of U+0250 takes one byte more
    than the letter. *)
Example parseContent_utf8_header_panics :
  Strings.len ipa_header_only = 15
  /\ Strings.Index (AnyText.ToUpper upperOfTurnedA ipa_header_only) "<EOH>" = 11
  /\ AnyText.parseContent upperOfTurnedA NewADIFParser ipa_header_only = Panics.
Proof. repeat split; vm_compute; reflexivity. Qed.

(** C6 fails on the code: with the file [latin1_header_only] at the stored
    path, [reload] neither returns an error nor keeps serving the
    collection it has: [ParseFile] panics, and nothing recovers. *)
Theorem reload_panics_on_latin1_header (upperRune : Z -> Z) :
  latin1_fs "log.adi" = inr (ReadsAll latin1_header_only)
  /\ AnyText.reload upperRune latin1_fs
       (mkReloadable (Some (mkParser [w1aw_qso])) "log.adi")
     = Panics.
Proof. split; vm_compute; reflexivity. Qed.

(** ** ParseFile and reload, on any text *)

Lemma AnyText_ParseFile_ascii (upperRune : Z -> Z) (p : ADIFParser) (content : string) :
  Strings.isASCII content = true ->
  AnyText.ParseFile upperRune p (ReadsAll content)
  = Returns (mkParser (QSOs p ++ spec_validRecords content), None).
Proof.
  intros H. unfold AnyText.ParseFile.
  rewrite (AnyText_parseContent_ascii upperRune p content H), parseContent_spec.
  reflexivity.
Qed.

(** C8, as amended: [ParseFile] returns an error exactly when reading the
    input fails; readable content never makes it return an error (when it
    returns, the error is nil), and ASCII content from which no valid
    record comes leaves the collection as it was. *)
Theorem ParseFile_error_iff_read_fails
    (upperRune : Z -> Z) (p : ADIFParser) (reader : Reader) :
  (forall p' e,
     AnyText.ParseFile upperRune p reader = Returns (p', Some e) <->
     exists err, reader = ReadFails err /\ p' = p
                 /\ e = WrapError "failed to read ADIF file: " err)
  /\ (forall content p' e,
        reader = ReadsAll content ->
        AnyText.ParseFile upperRune p reader = Returns (p', e) -> e = None)
  /\ (forall content,
        Strings.isASCII content = true ->
        reader = ReadsAll content ->
        spec_validRecords content = [] ->
        AnyText.ParseFile upperRune p reader = Returns (p, None)).
Proof.
  split; [|split].
  - intros p' e. destruct reader as [content|err]; simpl.
    + split.
      * intros H. apply AnyText_parseContent_no_error in H. discriminate.
      * intros (err & H & _). discriminate.
    + split.
      * intros H. injection H as <- <-. eauto.
      * intros (err' & H & -> & ->). injection H as <-. reflexivity.
  - intros content p' e -> H. simpl in H.
    eapply AnyText_parseContent_no_error, H.
  - intros content Hascii -> H.
    rewrite (AnyText_ParseFile_ascii upperRune p content Hascii), H, app_nil_r.
    destruct p; reflexivity.
Qed.

Lemma ParseFile_error_iff_read_fails_witness :
  Strings.isASCII unreadable_log = true
  /\ AnyText.ParseFile (fun r => r) NewADIFParser (ReadsAll unreadable_log)
     = Returns (NewADIFParser, None).
Proof.
  split; [reflexivity|].
  apply (proj2 (proj2 (ParseFile_error_iff_read_fails (fun r => r) NewADIFParser
                         (ReadsAll unreadable_log))) unreadable_log); reflexivity.
Defined.

(** X14: what [reload] does when it returns: an error leaves the
    coordinator as it was; the file that does not open and the file that
    cannot be read give an error; a file of ASCII text makes the parse of
    the file, into a new parser, the current collection; a file of any
    text makes [reload] swap in a new parser or panic. *)
Theorem reload_swaps_only_on_success
    (upperRune : Z -> Z) (fs : FileSystem) (rp : ReloadableParser) :
  (forall rp' e, AnyText.reload upperRune fs rp = Returns (rp', Some e) ->
                 rp' = rp /\ getParser rp' = getParser rp)
  /\ (forall err, fs (filePath rp) = inl err ->
                  exists e, AnyText.reload upperRune fs rp = Returns (rp, Some e))
  /\ (forall err, fs (filePath rp) = inr (ReadFails err) ->
                  exists e, AnyText.reload upperRune fs rp = Returns (rp, Some e))
  /\ (forall content, fs (filePath rp) = inr (ReadsAll content) ->
        Strings.isASCII content = true ->
        AnyText.reload upperRune fs rp
        = Returns (mkReloadable (Some (mkParser (spec_validRecords content)))
                                (filePath rp), None))
  /\ (forall content, fs (filePath rp) = inr (ReadsAll content) ->
        AnyText.reload upperRune fs rp = Panics
        \/ exists parser,
             AnyText.reload upperRune fs rp
             = Returns (mkReloadable (Some parser) (filePath rp), None)).
Proof.
  unfold AnyText.reload. destruct (fs (filePath rp)) as [err|[content|err]].
  - split; [|split; [|split; [|split]]]; try discriminate.
    + intros rp' e H. injection H as <- _. auto.
    + eauto.
  - assert (Hcases : AnyText.ParseFile upperRune NewADIFParser (ReadsAll content) = Panics
                     \/ exists parser,
                          AnyText.ParseFile upperRune NewADIFParser (ReadsAll content)
                          = Returns (parser, None)).
    { destruct (AnyText.ParseFile upperRune NewADIFParser (ReadsAll content))
        as [[parser e]|] eqn:E; [|left; reflexivity].
      right. exists parser.
      rewrite (AnyText_parseContent_no_error upperRune _ _ _ _ E). reflexivity. }
    split; [|split; [|split; [|split]]]; try discriminate.
    + intros rp' e H. exfalso.
      destruct Hcases as [E|[parser E]]; rewrite E in H; discriminate.
    + intros c H Hascii. injection H as <-.
      rewrite (AnyText_ParseFile_ascii upperRune NewADIFParser content Hascii).
      reflexivity.
    + intros c _. destruct Hcases as [E|[parser E]]; rewrite E; [left|right]; eauto.
  - simpl. split; [|split; [|split; [|split]]]; try discriminate.
    + intros rp' e H. injection H as <- _. auto.
    + eauto.
Qed.

Lemma reload_swaps_only_on_success_witness :
  (exists e, AnyText.reload (fun r => r) sample_fs
               (mkReloadable (Some (mkParser [w1aw_qso])) "missing.adi")
             = Returns (mkReloadable (Some (mkParser [w1aw_qso])) "missing.adi", Some e))
  /\ AnyText.reload (fun r => r) sample_fs
       (mkReloadable (Some (mkParser [w1aw_qso])) "log.adi")
     = Returns (mkReloadable (Some (mkParser (spec_validRecords sample_log))) "log.adi",
                None).
Proof.
  split.
  - destruct (reload_swaps_only_on_success (fun r => r) sample_fs
                (mkReloadable (Some (mkParser [w1aw_qso])) "missing.adi"))
      as (_ & H & _).
    apply (H (NewError "open: no such file or directory")). reflexivity.
  - destruct (reload_swaps_only_on_success (fun r => r) sample_fs
                (mkReloadable (Some (mkParser [w1aw_qso])) "log.adi"))
      as (_ & _ & _ & H & _).
    apply (H sample_log); reflexivity.
Defined.

(** ** What the header strip removes *)

Lemma append_cons (c : ascii) (a b : string) :
  (String c a ++ b = String c (a ++ b))%string.
Proof. reflexivity. Qed.

Lemma mapBytes_app (f : ascii -> ascii) (a b : string) :
  Strings.mapBytes f (a ++ b) = (Strings.mapBytes f a ++ Strings.mapBytes f b)%string.
Proof.
  induction a as [|c a IH]; [reflexivity|].
  rewrite append_cons. cbn [Strings.mapBytes]. rewrite IH. reflexivity.
Qed.


(** A marker does not begin in a non-empty text that is followed by a
    marker unless it is within that text: no proper end of the marker is a
    beginning of it. *)
Lemma prefix_EOH_app (x y : string) :
  x <> EmptyString ->
  String.prefix "<EOH>" (x ++ "<EOH>" ++ y) = String.prefix "<EOH>" x.
Proof.
  intros Hx.
  destruct x as [|c1 x]; [contradiction|].
  rewrite append_cons. cbn [String.prefix].
  destruct (ascii_dec "<" c1); [|reflexivity].
  destruct x as [|c2 x]; [reflexivity|].
  rewrite append_cons. cbn [String.prefix].
  destruct (ascii_dec "E" c2); [|reflexivity].
  destruct x as [|c3 x]; [reflexivity|].
  rewrite append_cons. cbn [String.prefix].
  destruct (ascii_dec "O" c3); [|reflexivity].
  destruct x as [|c4 x]; [reflexivity|].
  rewrite append_cons. cbn [String.prefix].
  destruct (ascii_dec "H" c4); [|reflexivity].
  destruct x as [|c5 x]; [reflexivity|].
  rewrite append_cons. cbn [String.prefix].
  destruct (ascii_dec ">" c5); [|reflexivity].
  destruct x; reflexivity.
Qed.

Lemma Index_none_prefix (s substr : string) :
  Strings.Index s substr = -1 -> String.prefix substr s = false.
Proof.
  destruct s as [|c s]; cbn [Strings.Index];
    destruct (String.prefix substr _); [discriminate|reflexivity|discriminate|reflexivity].
Qed.

Lemma Index_none_tail (c : ascii) (s substr : string) :
  Strings.Index (String c s) substr = -1 -> Strings.Index s substr = -1.
Proof.
  cbn [Strings.Index]. destruct (String.prefix substr (String c s)); [discriminate|].
  cbv zeta.
  destruct (Z.eqb_spec (Strings.Index s substr) (-1)) as [E|E]; [auto|].
  intros H. apply Index_range in E. lia.
Qed.

Lemma Index_first_EOH (x y : string) :
  Strings.Index x "<EOH>" = -1 ->
  Strings.Index (x ++ "<EOH>" ++ y) "<EOH>" = Strings.len x.
Proof.
  unfold Strings.len. induction x as [|c x IH]; intros H.
  - destruct y; reflexivity.
  - change ((String c x ++ "<EOH>" ++ y)%string)
      with (String c (x ++ "<EOH>" ++ y)%string).
    cbn [Strings.Index].
    change (String c (x ++ "<EOH>" ++ y)%string)
      with ((String c x ++ "<EOH>" ++ y)%string).
    rewrite prefix_EOH_app by discriminate.
    rewrite (Index_none_prefix _ _ H).
    rewrite (IH (Index_none_tail _ _ _ H)).
    destruct (Z.eqb_spec (Z.of_nat (String.length x)) (-1)); [lia|].
    cbn [String.length]. lia.
Qed.

Lemma substring_all (s : string) : String.substring 0 (String.length s) s = s.
Proof. induction s as [|c s IH]; simpl; [reflexivity|]. rewrite IH. reflexivity. Qed.

Lemma substring_drop (a b : string) :
  String.substring (String.length a) (String.length b) (a ++ b) = b.
Proof.
  induction a as [|c a IH]; [apply substring_all|].
  rewrite append_cons. exact IH.
Qed.

Lemma append_length (a b : string) :
  String.length (a ++ b) = (String.length a + String.length b)%nat.
Proof.
  induction a as [|c a IH]; [reflexivity|].
  rewrite append_cons. cbn [String.length]. rewrite IH. reflexivity.
Qed.

Lemma append_assoc (a b c : string) : ((a ++ b) ++ c = a ++ (b ++ c))%string.
Proof.
  induction a as [|x a IH]; [reflexivity|].
  rewrite !append_cons, IH. reflexivity.
Qed.

(** The header strip, on ASCII text: everything up to and with the first
    marker, in any case of its letters, is removed, and the text after it
    is left as it is; without a marker nothing is removed. *)
Lemma stripHeader_drops_header (h marker body : string) :
  Strings.ToUpper marker = "<EOH>"%string ->
  Strings.Index (Strings.ToUpper h) "<EOH>" = -1 ->
  stripHeader (h ++ marker ++ body) = body.
Proof.
  intros Hm Hh. unfold stripHeader, Strings.ToUpper.
  rewrite !mapBytes_app. fold (Strings.ToUpper marker). rewrite Hm.
  fold (Strings.ToUpper h).
  rewrite (Index_first_EOH (Strings.ToUpper h) _ Hh).
  assert (Hlen : String.length marker = 5%nat).
  { rewrite <- (mapBytes_length Strings.toUpperByte marker).
    fold (Strings.ToUpper marker). rewrite Hm. reflexivity. }
  unfold Strings.len, Strings.ToUpper. rewrite mapBytes_length.
  destruct (Z.eqb_spec (Z.of_nat (String.length h)) (-1)); [lia|]. simpl negb. cbv iota.
  unfold Strings.sliceFrom, Strings.slice, Strings.len.
  rewrite <- append_assoc.
  rewrite !append_length, Hlen.
  replace (Z.to_nat (Z.of_nat (String.length h) + 5))
    with (String.length (h ++ marker))%nat by (rewrite append_length, Hlen; lia).
  replace (Z.to_nat (Z.of_nat (String.length h + 5 + String.length body)
                     - (Z.of_nat (String.length h) + 5)))
    with (String.length body) by lia.
  apply substring_drop.
Qed.

Lemma stripHeader_without_marker (content : string) :
  Strings.Index (Strings.ToUpper content) "<EOH>" = -1 ->
  stripHeader content = content.
Proof. intros H. unfold stripHeader. rewrite H. reflexivity. Qed.

(** ** An ASCII header is stripped whatever follows it *)








(** ** What a parsed collection guarantees to the queries *)

Lemma isSpace_toLowerByte (c : ascii) :
  Strings.isSpace (Strings.toLowerByte c) = Strings.isSpace c.
Proof. destruct c as [[] [] [] [] [] [] [] []]; reflexivity. Qed.

Lemma trimLeft_ToLower (s : string) :
  Strings.trimLeft (Strings.ToLower s) = Strings.ToLower (Strings.trimLeft s).
Proof.
  unfold Strings.ToLower. induction s as [|c s IH]; simpl; [reflexivity|].
  rewrite isSpace_toLowerByte. destruct (Strings.isSpace c); [exact IH|reflexivity].
Qed.

Lemma trimRight_ToLower (s : string) :
  Strings.trimRight (Strings.ToLower s) = Strings.ToLower (Strings.trimRight s).
Proof.
  unfold Strings.ToLower. induction s as [|c s IH]; simpl; [reflexivity|].
  rewrite IH, isSpace_toLowerByte.
  destruct (Strings.trimRight s); simpl; [destruct (Strings.isSpace c)|]; reflexivity.
Qed.

Lemma normalise_ToLower (c : string) :
  Strings.ToUpper (Strings.TrimSpace (Strings.ToLower c))
  = Strings.ToUpper (Strings.TrimSpace c).
Proof.
  unfold Strings.TrimSpace.
  rewrite trimLeft_ToLower, trimRight_ToLower. apply ToUpper_ToLower.
Qed.

(** X5: every record [parseRecord] returns from ASCII text, valid or
    not, has no field with white space at either end, and its call sign
    is in upper case: [strings.TrimSpace] and [strings.ToUpper] would
    leave every field, and the call sign, as they are. *)
Theorem parseRecord_fields_normalised
    (record : string) (q : QSO) (e : option error) :
  Strings.isASCII record = true ->
  parseRecord record = (q, e) ->
  (forall f, Strings.TrimSpace (getField f q) = getField f q)
  /\ Strings.ToUpper (Call q) = Call q.
Proof.
  intros _ H. pose proof (parseRecord_normalised record) as Hn.
  rewrite H in Hn. exact Hn.
Qed.



Lemma parseRecord_fields_normalised_witness :
  Strings.isASCII "<call:6> w1aw <name:7> Alice " = true
  /\ Call (fst (parseRecord "<call:6> w1aw <name:7> Alice ")) = "W1AW"%string
  /\ Strings.TrimSpace (Name (fst (parseRecord "<call:6> w1aw <name:7> Alice ")))
     = Name (fst (parseRecord "<call:6> w1aw <name:7> Alice ")).
Proof.
  split; [reflexivity|]. split; [vm_compute; reflexivity|].
  destruct (parseRecord_fields_normalised "<call:6> w1aw <name:7> Alice "
              (fst (parseRecord "<call:6> w1aw <name:7> Alice "))
              (snd (parseRecord "<call:6> w1aw <name:7> Alice ")) eq_refl) as [H _].
  - destruct (parseRecord _). reflexivity.
  - exact (H FName).
Defined.






(** X7: the queries normalise the call sign themselves, so that a
    caller may do it before or not: on an ASCII call sign, [SearchQSO] and
    [GetQSOsByCallsign] return the same for the call sign, its trimmed
    upper case (the handler upper-cases the route parameter) and its lower
    case. *)
Theorem query_call_sign_normalised_once
    (p : ADIFParser) (callSign : string) (t : Time.Time) (tol : Z) :
  Strings.isASCII callSign = true ->
  SearchQSO p (Strings.ToUpper (Strings.TrimSpace callSign)) t tol
  = SearchQSO p callSign t tol
  /\ SearchQSO p (Strings.ToLower callSign) t tol = SearchQSO p callSign t tol
  /\ GetQSOsByCallsign p (Strings.ToUpper (Strings.TrimSpace callSign))
     = GetQSOsByCallsign p callSign
  /\ GetQSOsByCallsign p (Strings.ToLower callSign) = GetQSOsByCallsign p callSign.
Proof.
  intros _. unfold SearchQSO, GetQSOsByCallsign.
  rewrite normalise_idem, normalise_ToLower. auto.
Qed.

Lemma query_call_sign_normalised_once_witness :
  Strings.isASCII " w1aw " = true
  /\ SearchQSO (mkParser [w1aw_qso]) (Strings.ToUpper (Strings.TrimSpace " w1aw "))
       (Timestamp w1aw_qso) 10
     = SearchQSO (mkParser [w1aw_qso]) " w1aw " (Timestamp w1aw_qso) 10.
Proof.
  split; [reflexivity|].
  destruct (query_call_sign_normalised_once (mkParser [w1aw_qso]) " w1aw "
              (Timestamp w1aw_qso) 10 eq_refl) as (H & _).
  exact H.
Defined.

(** ** Searching at a record's own time *)









(** ** A wider tolerance *)





(** ** NewReloadableParser and startReloading *)

Lemma reload_ascii (upperRune : Z -> Z) (fs : FileSystem) (rp : ReloadableParser)
    (content : string) :
  fs (filePath rp) = inr (ReadsAll content) ->
  Strings.isASCII content = true ->
  AnyText.reload upperRune fs rp
  = Returns (mkReloadable (Some (mkParser (spec_validRecords content))) (filePath rp),
             None).
Proof.
  intros H Hascii. unfold AnyText.reload. rewrite H.
  rewrite (AnyText_ParseFile_ascii upperRune NewADIFParser content Hascii).
  reflexivity.
Qed.

Lemma reload_unreadable (upperRune : Z -> Z) (fs : FileSystem) (rp : ReloadableParser) :
  (forall content, fs (filePath rp) <> inr (ReadsAll content)) ->
  exists e, AnyText.reload upperRune fs rp = Returns (rp, Some e).
Proof.
  intros H. unfold AnyText.reload. destruct (fs (filePath rp)) as [err|[content|err]].
  - eauto.
  - exfalso. apply (H content). reflexivity.
  - simpl. eauto.
Qed.

Lemma reload_returns (upperRune : Z -> Z) (fs : FileSystem) (rp rp' : ReloadableParser)
    (e : option error) :
  AnyText.reload upperRune fs rp = Returns (rp', e) ->
  filePath rp' = filePath rp
  /\ match e with
     | Some _ => rp' = rp
     | None => getParser rp' <> None
     end.
Proof.
  unfold AnyText.reload. destruct (fs (filePath rp)) as [err|file].
  - intros H. injection H as <- <-. auto.
  - destruct (AnyText.ParseFile upperRune NewADIFParser file) as [[q [err|]]|];
      [| |discriminate]; intros H; injection H as <- <-; simpl; auto.
Qed.

(** X10: [NewReloadableParser], where it returns: with a file of ASCII
    text at the path it returns a coordinator that serves the valid records
    of the file, and no error; with a file that does not open or cannot be
    read it returns nil and the error; a coordinator it returns has the
    path and a parser, and comes with no error. *)
Theorem NewReloadableParser_loads_or_fails
    (upperRune : Z -> Z) (fs : FileSystem) (path : string) :
  (forall content, fs path = inr (ReadsAll content) ->
     Strings.isASCII content = true ->
     AnyText.NewReloadableParser upperRune fs path
     = Returns (Some (mkReloadable (Some (mkParser (spec_validRecords content))) path),
                None))
  /\ ((forall content, fs path <> inr (ReadsAll content)) ->
      exists e, AnyText.NewReloadableParser upperRune fs path = Returns (None, Some e))
  /\ (forall rp e,
        AnyText.NewReloadableParser upperRune fs path = Returns (Some rp, e) ->
        e = None /\ filePath rp = path /\ getParser rp <> None).
Proof.
  unfold AnyText.NewReloadableParser. split; [|split].
  - intros content H Hascii.
    rewrite (reload_ascii upperRune fs (mkReloadable None path) content H Hascii).
    reflexivity.
  - intros H. destruct (reload_unreadable upperRune fs (mkReloadable None path) H)
      as [e ->].
    eauto.
  - intros rp e.
    destruct (AnyText.reload upperRune fs (mkReloadable None path))
      as [[rp' [err|]]|] eqn:E; [discriminate| |discriminate].
    intros H. injection H as <- <-.
    destruct (reload_returns upperRune fs _ _ _ E) as [Hp Hg]. auto.
Qed.

Lemma NewReloadableParser_loads_or_fails_witness :
  Strings.isASCII sample_log = true
  /\ AnyText.NewReloadableParser (fun r => r) sample_fs "log.adi"
     = Returns (Some (mkReloadable (Some (mkParser (spec_validRecords sample_log)))
                                   "log.adi"), None)
  /\ exists e, AnyText.NewReloadableParser (fun r => r) sample_fs "missing.adi"
               = Returns (None, Some e).
Proof.
  destruct (NewReloadableParser_loads_or_fails (fun r => r) sample_fs "log.adi")
    as (H1 & _ & _).
  destruct (NewReloadableParser_loads_or_fails (fun r => r) sample_fs "missing.adi")
    as (_ & H2 & _).
  split; [reflexivity|]. split.
  - apply (H1 sample_log); reflexivity.
  - apply H2. intros content. discriminate.
Defined.

(** X11: the periodic reload, on files of ASCII text: after any sequence
    of ticks the coordinator has its path and serves the valid records of
    the last file that opened and was read; when none was, it serves what
    it served before. A tick that fails changes nothing. *)
Theorem startReloading_serves_last_readable
    (upperRune : Z -> Z) (rp : ReloadableParser) (ticks : list FileSystem) :
  (forall fs content, In fs ticks -> fs (filePath rp) = inr (ReadsAll content) ->
                      Strings.isASCII content = true) ->
  exists rp',
    AnyText.startReloading upperRune rp ticks = Returns rp'
    /\ filePath rp' = filePath rp
    /\ getParser rp'
       = match lastReadable (filePath rp) ticks with
         | Some content => Some (mkParser (spec_validRecords content))
         | None => getParser rp
         end.
Proof.
  revert rp. induction ticks as [|fs ticks IH]; intros rp Hascii.
  - exists rp. auto.
  - cbn [AnyText.startReloading lastReadable].
    assert (Hstep : exists rp1,
               (exists e, AnyText.reload upperRune fs rp = Returns (rp1, e))
               /\ filePath rp1 = filePath rp
               /\ getParser rp1
                  = match fs (filePath rp) with
                    | inr (ReadsAll content) => Some (mkParser (spec_validRecords content))
                    | _ => getParser rp
                    end).
    { destruct (fs (filePath rp)) as [err|[content|err]] eqn:E.
      - exists rp. split; [|auto]. unfold AnyText.reload. rewrite E. eauto.
      - eexists. split.
        + rewrite (reload_ascii upperRune fs rp content E); [eauto|].
          apply (Hascii fs content); [left; reflexivity|exact E].
        + auto.
      - exists rp. split; [|auto]. unfold AnyText.reload. rewrite E. simpl. eauto. }
    destruct Hstep as (rp1 & [e He] & Hp1 & Hg1). rewrite He.
    destruct (IH rp1) as (rp' & Hrun & Hp & Hg).
    { intros fs' content Hin. rewrite Hp1. apply Hascii. right. exact Hin. }
    exists rp'. split; [exact Hrun|]. split; [congruence|].
    rewrite Hg, Hp1, Hg1.
    destruct (lastReadable (filePath rp) ticks); [reflexivity|].
    destruct (fs (filePath rp)) as [|[|]]; reflexivity.
Qed.

Lemma startReloading_serves_last_readable_witness :
  (forall fs content,
     In fs [empty_fs; sample_fs; empty_fs] ->
     fs "log.adi"%string = inr (ReadsAll content) -> Strings.isASCII content = true)
  /\ exists rp',
       AnyText.startReloading (fun r => r) (mkReloadable (Some (mkParser [])) "log.adi")
         [empty_fs; sample_fs; empty_fs]
       = Returns rp'
       /\ getParser rp' = Some (mkParser (spec_validRecords sample_log)).
Proof.
  assert (H : forall fs content,
             In fs [empty_fs; sample_fs; empty_fs] ->
             fs "log.adi"%string = inr (ReadsAll content) ->
             Strings.isASCII content = true).
  { intros fs content [<-|[<-|[<-|[]]]] E; try discriminate E.
    vm_compute in E. injection E as <-. reflexivity. }
  split; [exact H|].
  destruct (startReloading_serves_last_readable (fun r => r)
              (mkReloadable (Some (mkParser [])) "log.adi")
              [empty_fs; sample_fs; empty_fs] H) as (rp' & Hrun & _ & Hg).
  exists rp'. split; [exact Hrun|exact Hg].
Defined.

(** A tick that finds [latin1_header_only] at the path ends the program:
    the panic of [reload] is in the goroutine, and nothing recovers. *)
Example startReloading_panics_on_latin1_header :
  AnyText.startReloading (fun r => r)
    (mkReloadable (Some (mkParser [w1aw_qso])) "log.adi") [sample_fs; latin1_fs; sample_fs]
  = Panics.
Proof. vm_compute. reflexivity. Qed.

(** ** FormatDate and FormatTime *)

(** X12: [FormatDate] puts a dash after the fourth and after the sixth
    byte of a date of eight bytes, whatever the bytes are: the result has
    ten bytes, and without the two dashes it is the date; a date of
    another length is returned as it is. [FormatTime] keeps the first four
    bytes of a time of four bytes or more, with a colon in the middle, and
    drops the rest; a shorter time is returned as it is. *)
Theorem FormatDate_FormatTime_shape (q : QSO) :
  (Strings.len (QSODate q) = 8 ->
   Strings.len (FormatDate q) = 10
   /\ Strings.slice (FormatDate q) 4 5 = "-"%string
   /\ Strings.slice (FormatDate q) 7 8 = "-"%string
   /\ (Strings.slice (FormatDate q) 0 4 ++ Strings.slice (FormatDate q) 5 7
       ++ Strings.slice (FormatDate q) 8 10)%string = QSODate q)
  /\ (Strings.len (QSODate q) <> 8 -> FormatDate q = QSODate q)
  /\ (4 <= Strings.len (TimeOn q) ->
      Strings.len (FormatTime q) = 5
      /\ Strings.slice (FormatTime q) 2 3 = ":"%string
      /\ (Strings.slice (FormatTime q) 0 2 ++ Strings.slice (FormatTime q) 3 5)%string
         = Strings.slice (TimeOn q) 0 4)
  /\ (Strings.len (TimeOn q) < 4 -> FormatTime q = TimeOn q).
Proof.
  unfold FormatDate, FormatTime, Strings.len. repeat split.
  - destruct (QSODate q) as [|c1 [|c2 [|c3 [|c4 [|c5 [|c6 [|c7 [|c8 [|c9 d]]]]]]]]];
      cbn [String.length] in *; try lia. reflexivity.
  - destruct (QSODate q) as [|c1 [|c2 [|c3 [|c4 [|c5 [|c6 [|c7 [|c8 [|c9 d]]]]]]]]];
      cbn [String.length] in *; try lia. reflexivity.
  - destruct (QSODate q) as [|c1 [|c2 [|c3 [|c4 [|c5 [|c6 [|c7 [|c8 [|c9 d]]]]]]]]];
      cbn [String.length] in *; try lia. reflexivity.
  - destruct (QSODate q) as [|c1 [|c2 [|c3 [|c4 [|c5 [|c6 [|c7 [|c8 [|c9 d]]]]]]]]];
      cbn [String.length] in *; try lia. reflexivity.
  - intros H. destruct (Z.eqb_spec (Z.of_nat (String.length (QSODate q))) 8);
      [contradiction|reflexivity].
  - destruct (TimeOn q) as [|t1 [|t2 [|t3 [|t4 t]]]]; cbn [String.length] in *; try lia.
    destruct (Z.leb_spec 4 (Z.of_nat (S (S (S (S (String.length t))))))); [|lia].
    destruct t; reflexivity.
  - destruct (TimeOn q) as [|t1 [|t2 [|t3 [|t4 t]]]]; cbn [String.length] in *; try lia.
    destruct (Z.leb_spec 4 (Z.of_nat (S (S (S (S (String.length t))))))); [|lia].
    destruct t; reflexivity.
  - destruct (TimeOn q) as [|t1 [|t2 [|t3 [|t4 t]]]]; cbn [String.length] in *; try lia.
    destruct (Z.leb_spec 4 (Z.of_nat (S (S (S (S (String.length t))))))); [|lia].
    destruct t; reflexivity.
  - intros H. destruct (Z.leb_spec 4 (Z.of_nat (String.length (TimeOn q))));
      [lia|reflexivity].
Qed.

Lemma FormatDate_FormatTime_shape_witness :
  Strings.len (QSODate w1aw_qso) = 8
  /\ 4 <= Strings.len (TimeOn w1aw_qso)
  /\ Strings.len (FormatDate w1aw_qso) = 10
  /\ Strings.len (FormatTime w1aw_qso) = 5.
Proof.
  destruct (FormatDate_FormatTime_shape w1aw_qso) as (Hd & _ & Ht & _).
  assert (H8 : Strings.len (QSODate w1aw_qso) = 8) by reflexivity.
  assert (H4 : 4 <= Strings.len (TimeOn w1aw_qso)) by (vm_compute; discriminate).
  split; [exact H8|]. split; [exact H4|].
  destruct (Hd H8) as (H10 & _). destruct (Ht H4) as (H5 & _).
  split; [exact H10|exact H5].
Defined.
